(** * Shallow embedding of fstop's adaptive-display engine

    Sources embedded here:
    - [src/lib/heat.mjs]        : event weights, exponential decay, directory heat
    - [src/lib/tree-state.mjs]  : the mutable tree with history and ghosts
    - [src/lib/layout.mjs]      : flattening, weighing and selection of lines
    - [src/lib/file-watcher.mjs]: parsing of [git status --porcelain=v1]
    - [src/unnamed/part_000]    : the orchestrator's breath timer

    JS numbers are modelled as follows: timestamps ([Date.now()]) are
    integers, so [Z]; heats and weights are real numbers ([R]), the usual
    idealisation of IEEE doubles for [Math.pow] and the additive weights.
    JS [Map]s keep insertion order and are modelled as association lists
    whose [set] updates an existing key in place and appends a new one. *)

From Stdlib Require Import ZArith List String Ascii Bool Reals Rpower Lra Lia
  Permutation Sorted.
Import ListNotations.

(* ------------------------------------------------------------------ *)
(** ** Heat model ([src/lib/heat.mjs]) *)

Module Heat.
Local Open Scope R_scope.

(** Event kinds carried by a node ([eventType]); [None] is JS [null]. *)
Inductive event_kind :=
  | Add | AddDir | Change | Unlink | UnlinkDir | Rename | ChildChange.

Definition event_kind_eqb (a b : event_kind) : bool :=
  match a, b with
  | Add, Add | AddDir, AddDir | Change, Change | Unlink, Unlink
  | UnlinkDir, UnlinkDir | Rename, Rename | ChildChange, ChildChange => true
  | _, _ => false
  end.

(** [EVENT_WEIGHTS[eventType] || EVENT_WEIGHTS.default] *)
Definition EVENT_WEIGHTS (k : option event_kind) : R :=
  match k with
  | Some Unlink | Some UnlinkDir => 100
  | Some Add | Some AddDir => 80
  | Some Change => 60
  | Some Rename => 40
  | _ => 30
  end.

(** [HEAT_CONFIG] *)
Definition halfLife : R := 10000.
Definition maxHeat : R := 100.
Definition hotThreshold : R := 20.
Definition dirChildSumWeight : R := 1 / 10.

(** [calculateHeat(eventType, eventTime, now)]; [!eventTime] holds for
    [null] and for the timestamp [0]. *)
Definition calculateHeat (eventType : option event_kind)
    (eventTime : option Z) (now : Z) : R :=
  match eventTime with
  | None => 0
  | Some t =>
      if Z.eqb t 0 then 0 else
      let weight := EVENT_WEIGHTS eventType in
      let elapsed := IZR (now - t) in
      let decay := Rpower 2 (- elapsed / halfLife) in
      let heat := weight * decay in
      Rmin heat maxHeat
  end.

(** [Math.max(...xs)] on a non-empty array. *)
Definition js_max_list (x : R) (xs : list R) : R := fold_left Rmax xs x.

(** [calculateDirHeat(childHeats, ownHeat)] *)
Definition calculateDirHeat (childHeats : list R) (ownHeat : R) : R :=
  match childHeats with
  | [] => ownHeat
  | c :: cs =>
      let maxChildHeat := js_max_list c cs in
      let sumChildHeat := fold_left Rplus childHeats 0 in
      let aggregatedHeat := maxChildHeat + sumChildHeat * dirChildSumWeight in
      Rmin (Rmax aggregatedHeat ownHeat) maxHeat
  end.

(** [isHot(heat)] *)
Definition isHot (heat : R) : bool :=
  if Rle_dec hotThreshold heat then true else false.

(** The heat function as the specification words it:
    [weight * 2^(-(now - event_time)/half_life)] clamped to [MAX_HEAT],
    [0] when there is no event time. *)
Definition spec_heat (eventType : option event_kind)
    (eventTime : option Z) (now : Z) : R :=
  match eventTime with
  | None => 0
  | Some t =>
      Rmin (EVENT_WEIGHTS eventType * Rpower 2 (- IZR (now - t) / halfLife))
        maxHeat
  end.

(** The unclamped decay term of the specification. *)
Definition spec_heat_unclamped (eventType : option event_kind) (t now : Z) : R :=
  EVENT_WEIGHTS eventType * Rpower 2 (- IZR (now - t) / halfLife).

End Heat.

(* ------------------------------------------------------------------ *)
(** ** JS string helpers *)

Module JsString.
Local Open Scope string_scope.

(** [s.includes(sub)] *)
Definition includes (s sub : string) : bool :=
  match String.index 0 sub s with Some _ => true | None => false end.

(** [s.slice(n)] for [n >= 0] *)
Definition slice_from (n : nat) (s : string) : string :=
  substring n (String.length s - n) s.

(** [s[i]]: a one-character string, or [undefined] past the end. *)
Definition char_at (s : string) (i : nat) : option ascii := String.get i s.

(** [s.split(sep)] for a non-empty separator. *)
Fixpoint split_go (fuel : nat) (sep s cur : string) : list string :=
  match fuel with
  | O => [cur]
  | S f =>
      match s with
      | EmptyString => [cur]
      | String c rest =>
          if String.prefix sep s
          then cur :: split_go f sep (slice_from (String.length sep) s) ""
          else split_go f sep rest (cur ++ String c "")
      end
  end.

Definition split (s sep : string) : list string :=
  split_go (S (String.length s)) sep s "".

(** [arr[i]] on an array of strings ([undefined] is [None]). *)
Definition nth_opt (l : list string) (i : nat) : option string := nth_error l i.

(** [s.toLowerCase()] on one code unit. A [string] here is a sequence of
    UTF-16 code units in the range U+0000..U+00FF (Latin-1), each held in
    one [ascii]; on that range JS lowercases exactly 'A'..'Z' and
    U+00C0..U+00DE except U+00D7 (the multiplication sign), each to the code unit 32 above it,
    and every result stays in the range. *)
Definition lower_ascii (c : ascii) : ascii :=
  let n := nat_of_ascii c in
  if ((65 <=? n)%nat && (n <=? 90)%nat)
     || ((192 <=? n)%nat && (n <=? 222)%nat && negb (n =? 215)%nat)
  then ascii_of_nat (n + 32) else c.

Fixpoint toLowerCase (s : string) : string :=
  match s with
  | EmptyString => EmptyString
  | String c r => String (lower_ascii c) (toLowerCase r)
  end.

(** [s.replace(sub, rep)] with a string pattern: first occurrence only. *)
Definition replace_first (s sub rep : string) : string :=
  match String.index 0 sub s with
  | Some i => substring 0 i s ++ rep ++ slice_from (i + String.length sub) s
  | None => s
  end.

End JsString.

(* ------------------------------------------------------------------ *)
(** ** Git status parsing ([GitStatus] in [src/lib/file-watcher.mjs]) *)

Module Git.
Local Open Scope string_scope.

(** The [status] field of a git status object. *)
Inductive git_class := Conflict | Untracked | Both | Unstaged | Staged.

(** Which entry of [GIT_SYMBOLS] / [GIT_COLORS] a status object uses. *)
Inductive git_glyph := GConflict | GUntracked | GUnstaged | GStaged.

Record git_info := { symbol : git_glyph; color : git_glyph; status : git_class }.

Definition is_char (c : option ascii) (a : ascii) : bool :=
  match c with Some c' => Ascii.eqb c' a | None => false end.

(** [parseStatus(index, workTree)]; [undefined] characters are [None]. *)
Definition parseStatus (index workTree : option ascii) : option git_info :=
  if is_char index "U" || is_char workTree "U"
     || (is_char index "A" && is_char workTree "A")
     || (is_char index "D" && is_char workTree "D")
  then Some {| symbol := GConflict; color := GConflict; status := Conflict |}
  else if is_char index "?" && is_char workTree "?"
  then Some {| symbol := GUntracked; color := GUntracked; status := Untracked |}
  else if negb (is_char index " ") && negb (is_char index "?")
          && negb (is_char workTree " ") && negb (is_char workTree "?")
  then Some {| symbol := GUnstaged; color := GUnstaged; status := Both |}
  else if negb (is_char workTree " ") && negb (is_char workTree "?")
  then Some {| symbol := GUnstaged; color := GUnstaged; status := Unstaged |}
  else if negb (is_char index " ") && negb (is_char index "?")
  then Some {| symbol := GStaged; color := GStaged; status := Staged |}
  else None.

(** A JS [Map] from full paths to status objects. *)
Definition status_map := list (string * git_info).

Fixpoint map_set (m : status_map) (k : string) (v : git_info) : status_map :=
  match m with
  | [] => [(k, v)]
  | (k', v') :: r => if String.eqb k k' then (k, v) :: r else (k', v') :: map_set r k v
  end.

Fixpoint map_get (m : status_map) (k : string) : option git_info :=
  match m with
  | [] => None
  | (k', v) :: r => if String.eqb k k' then Some v else map_get r k
  end.

(** The body of the loop of [fetchFileStatusInto] for one line. *)
Definition processLine (rootPath : string) (targetMap : status_map)
    (line : string) : status_map :=
  if String.eqb line "" then targetMap else
  let indexStatus := JsString.char_at line 0 in
  let workTreeStatus := JsString.char_at line 1 in
  let filePath := JsString.slice_from 3 line in
  let actualPath :=
    if JsString.includes filePath " -> "
    then match JsString.nth_opt (JsString.split filePath " -> ") 1 with
         | Some p => p
         | None => "undefined"
         end
    else filePath in
  let fullPath := rootPath ++ "/" ++ actualPath in
  match parseStatus indexStatus workTreeStatus with
  | Some st => map_set targetMap fullPath st
  | None => targetMap
  end.

Definition newline : string := String (ascii_of_nat 10) "".

(** [fetchFileStatusInto(targetMap)] once [git status --porcelain=v1] has
    produced [stdout]. *)
Definition fetchFileStatusInto (rootPath stdout : string)
    (targetMap : status_map) : status_map :=
  fold_left (processLine rootPath) (JsString.split stdout newline) targetMap.

End Git.

(* ------------------------------------------------------------------ *)
(** ** JS [Map]s as insertion-ordered association lists *)

Module JsMap.
Section JsMap.
Context {K V : Type} (eqb : K -> K -> bool).

(** [m.get(k)] *)
Fixpoint get (m : list (K * V)) (k : K) : option V :=
  match m with
  | [] => None
  | (k', v) :: r => if eqb k k' then Some v else get r k
  end.

(** [m.set(k, v)]: an existing key keeps its position. *)
Fixpoint set (m : list (K * V)) (k : K) (v : V) : list (K * V) :=
  match m with
  | [] => [(k, v)]
  | (k', v') :: r => if eqb k k' then (k', v) :: r else (k', v') :: set r k v
  end.

(** [m.delete(k)] *)
Fixpoint delete (m : list (K * V)) (k : K) : list (K * V) :=
  match m with
  | [] => []
  | (k', v') :: r => if eqb k k' then r else (k', v') :: delete r k
  end.

(** [m.has(k)] *)
Definition has (m : list (K * V)) (k : K) : bool :=
  match get m k with Some _ => true | None => false end.

End JsMap.
End JsMap.

(* ------------------------------------------------------------------ *)
(** ** Tree state ([src/lib/tree-state.mjs]) *)

Module Tree.
Import Heat.

(** A normalised absolute path, as its segments: ["/r/a/b"] is
    [["r"; "a"; "b"]] and ["/"] is [[]].  [currentPath + sep + segment]
    in [ensureParents] is [currentPath ++ [segment]] (for a root other
    than ["/"]). *)
Definition path := list string.

Fixpoint path_eqb (p q : path) : bool :=
  match p, q with
  | [], [] => true
  | a :: p', b :: q' => String.eqb a b && path_eqb p' q'
  | _, _ => false
  end.

(** The JS string of a path, and its [.length]. *)
Definition path_string (p : path) : string :=
  match p with
  | [] => "/"%string
  | _ => fold_right (fun s acc => ("/" ++ s ++ acc)%string) ""%string p
  end.

Definition js_length (p : path) : nat := String.length (path_string p).

(** [path.dirname] and [path.basename] *)
Definition dirname (p : path) : path := removelast p.
Definition basename (p : path) : string := last p ""%string.

(** [path.relative(from, to)] split on [sep]. *)
Fixpoint relative (from to : path) : list string :=
  match from, to with
  | f :: fs, t :: ts =>
      if String.eqb f t then relative fs ts
      else map (fun _ => ".."%string) from ++ to
  | _, _ => map (fun _ => ".."%string) from ++ to
  end.

Inductive ntype := File | Directory.

Definition ntype_eqb (a b : ntype) : bool :=
  match a, b with File, File | Directory, Directory => true | _, _ => false end.

(** Node objects live in a heap; [loc] is an object reference. *)
Definition loc := nat.

Record node := mkNode {
  npath : path;
  name : string;
  type : ntype;
  eventType : option event_kind;
  eventTime : option Z;
  children : list (string * loc);   (* Map name -> node *)
  isGhost : bool;
  ghostFadeStep : nat;
  heat : option R                   (* undefined until first computed *)
}.

Record ghost := mkGhost { gnode : loc; deathTime : Z; fadeStep : nat }.

Record TreeState := mkTreeState {
  rootPath : path;
  rootName : string;
  historyLimit : nat;
  ghostFadeSteps : nat;
  root : loc;
  nodes : list (path * loc);        (* Map path -> node *)
  history : list loc;               (* array of nodes, most recent first *)
  ghosts : list (path * ghost);     (* Map path -> ghost record *)
  heap : list (loc * node);
  next_loc : loc
}.

(** Heap access: reading and writing fields of node objects. *)
Definition heap_get (h : list (loc * node)) (l : loc) : option node :=
  JsMap.get Nat.eqb h l.

Definition heap_modify (h : list (loc * node)) (l : loc) (f : node -> node)
    : list (loc * node) :=
  map (fun '(l', n) => if Nat.eqb l l' then (l', f n) else (l', n)) h.

Definition with_heap (st : TreeState) h : TreeState :=
  {| rootPath := rootPath st; rootName := rootName st;
     historyLimit := historyLimit st; ghostFadeSteps := ghostFadeSteps st;
     root := root st; nodes := nodes st; history := history st;
     ghosts := ghosts st; heap := h; next_loc := next_loc st |}.

Definition with_nodes (st : TreeState) ns : TreeState :=
  {| rootPath := rootPath st; rootName := rootName st;
     historyLimit := historyLimit st; ghostFadeSteps := ghostFadeSteps st;
     root := root st; nodes := ns; history := history st;
     ghosts := ghosts st; heap := heap st; next_loc := next_loc st |}.

Definition with_history (st : TreeState) hs : TreeState :=
  {| rootPath := rootPath st; rootName := rootName st;
     historyLimit := historyLimit st; ghostFadeSteps := ghostFadeSteps st;
     root := root st; nodes := nodes st; history := hs;
     ghosts := ghosts st; heap := heap st; next_loc := next_loc st |}.

Definition with_ghosts (st : TreeState) gs : TreeState :=
  {| rootPath := rootPath st; rootName := rootName st;
     historyLimit := historyLimit st; ghostFadeSteps := ghostFadeSteps st;
     root := root st; nodes := nodes st; history := history st;
     ghosts := gs; heap := heap st; next_loc := next_loc st |}.

Definition modify_node (st : TreeState) (l : loc) (f : node -> node) : TreeState :=
  with_heap st (heap_modify (heap st) l f).

(** [new] object: allocation of a fresh reference. *)
Definition alloc (st : TreeState) (n : node) : TreeState * loc :=
  let l := next_loc st in
  ({| rootPath := rootPath st; rootName := rootName st;
      historyLimit := historyLimit st; ghostFadeSteps := ghostFadeSteps st;
      root := root st; nodes := nodes st; history := history st;
      ghosts := ghosts st; heap := heap st ++ [(l, n)]; next_loc := S l |}, l).

Definition set_children (cs : list (string * loc)) (n : node) : node :=
  {| npath := npath n; name := name n; type := type n; eventType := eventType n;
     eventTime := eventTime n; children := cs; isGhost := isGhost n;
     ghostFadeStep := ghostFadeStep n; heat := heat n |}.

Definition set_event (k : option event_kind) (t : option Z) (n : node) : node :=
  {| npath := npath n; name := name n; type := type n; eventType := k;
     eventTime := t; children := children n; isGhost := isGhost n;
     ghostFadeStep := ghostFadeStep n; heat := heat n |}.

Definition set_type (ty : ntype) (n : node) : node :=
  {| npath := npath n; name := name n; type := ty; eventType := eventType n;
     eventTime := eventTime n; children := children n; isGhost := isGhost n;
     ghostFadeStep := ghostFadeStep n; heat := heat n |}.

Definition set_ghost (g : bool) (step : nat) (n : node) : node :=
  {| npath := npath n; name := name n; type := type n; eventType := eventType n;
     eventTime := eventTime n; children := children n; isGhost := g;
     ghostFadeStep := step; heat := heat n |}.

Definition set_heat (v : R) (n : node) : node :=
  {| npath := npath n; name := name n; type := type n; eventType := eventType n;
     eventTime := eventTime n; children := children n; isGhost := isGhost n;
     ghostFadeStep := ghostFadeStep n; heat := Some v |}.

(** [createNode(path, type)] *)
Definition createNode (p : path) (ty : ntype) : node :=
  {| npath := p; name := basename p; type := ty; eventType := None;
     eventTime := None; children := []; isGhost := false; ghostFadeStep := 0;
     heat := None |}.

(** [new TreeState(rootPath, { historyLimit, ghostFadeSteps })]; an
    absent or zero option falls back to its default ([||]). *)
Definition init (rp : path) (hl gfs : nat) : TreeState :=
  {| rootPath := rp;
     rootName := if String.eqb (basename rp) "" then path_string rp else basename rp;
     historyLimit := if Nat.eqb hl 0 then 4 else hl;
     ghostFadeSteps := if Nat.eqb gfs 0 then 3 else gfs;
     root := 0;
     nodes := [(rp, 0)];
     history := [];
     ghosts := [];
     heap := [(0, createNode rp Directory)];
     next_loc := 1 |}.

Definition nodes_get (st : TreeState) (p : path) : option loc :=
  JsMap.get path_eqb (nodes st) p.

Definition loc_path (st : TreeState) (l : loc) : option path :=
  option_map npath (heap_get (heap st) l).

Definition loc_children (st : TreeState) (l : loc) : list (string * loc) :=
  match heap_get (heap st) l with Some n => children n | None => [] end.

(** [getPathSegments(fullPath)] *)
Definition getPathSegments (st : TreeState) (fullPath : path) : list string :=
  relative (rootPath st) fullPath.

(** The loop of [ensureParents] over all segments but the last. *)
Fixpoint ensure_loop (st : TreeState) (current : loc) (currentPath : path)
    (segs : list string) : TreeState * loc :=
  match segs with
  | [] => (st, current)
  | segment :: rest =>
      let currentPath := currentPath ++ [segment] in
      let st :=
        if JsMap.has String.eqb (loc_children st current) segment then st
        else
          let '(st, l) := alloc st (createNode currentPath Directory) in
          let st := modify_node st current (fun n =>
                      set_children (JsMap.set String.eqb (children n) segment l) n) in
          with_nodes st (JsMap.set path_eqb (nodes st) currentPath l) in
      match JsMap.get String.eqb (loc_children st current) segment with
      | Some c => ensure_loop st c currentPath rest
      | None => (st, current)     (* unreachable: the child was just set *)
      end
  end.

(** [ensureParents(fullPath)] *)
Definition ensureParents (st : TreeState) (fullPath : path) : TreeState * loc :=
  let segments := getPathSegments st fullPath in
  match segments with
  | [] => (st, root st)
  | _ => ensure_loop st (root st) (rootPath st) (removelast segments)
  end.

(** The update [propagateToParents] applies to one existing parent. *)
Definition propagate_update (now : Z) (n : node) : node :=
  let stale := match eventTime n with
               | None => true
               | Some t => Z.eqb t 0 || Z.ltb 100 (now - t)
               end in
  if stale then
    let k := match eventType n with
             | None | Some ChildChange => Some ChildChange
             | k => k
             end in
    set_event k (Some now) n
  else n.

(** The [while] loop of [propagateToParents]; it stops when the path is
    shorter than the root's, or right after visiting the root. *)
Fixpoint propagate_loop (fuel : nat) (st : TreeState) (parentPath : path)
    (now : Z) : TreeState :=
  match fuel with
  | O => st
  | S f =>
      if Nat.ltb (js_length parentPath) (js_length (rootPath st)) then st else
      let st := match nodes_get st parentPath with
                | Some l => modify_node st l (propagate_update now)
                | None => st
                end in
      if path_eqb parentPath (rootPath st) then st
      else propagate_loop f st (dirname parentPath) now
  end.

(** [propagateToParents(fullPath, eventType, now)]; the event type is
    not read by the body. *)
Definition propagateToParents (st : TreeState) (fullPath : path)
    (eventType : option event_kind) (now : Z) : TreeState :=
  propagate_loop (S (List.length fullPath)) st (dirname fullPath) now.

(** [addToHistory(node)] *)
Definition addToHistory (st : TreeState) (l : loc) : TreeState :=
  let p := loc_path st l in
  let hs := filter (fun x => negb (match loc_path st x, p with
                                   | Some a, Some b => path_eqb a b
                                   | None, None => true
                                   | _, _ => false end)) (history st) in
  let hs := l :: hs in
  let hs := if Nat.ltb (historyLimit st) (List.length hs)
            then firstn (historyLimit st) hs else hs in
  with_history st hs.

(** [markChildrenAsGhosts(node)]; [fuel] bounds the recursion depth. *)
Fixpoint markChildrenAsGhosts (fuel : nat) (st : TreeState) (l : loc) : TreeState :=
  match fuel with
  | O => st
  | S f =>
      fold_left (fun st '(_, c) =>
          let st := modify_node st c (set_ghost true 0) in
          match heap_get (heap st) c with
          | Some cn => if ntype_eqb (type cn) Directory
                       then markChildrenAsGhosts f st c else st
          | None => st
          end)
        (loc_children st l) st
  end.

Definition fuel_of (st : TreeState) : nat := S (List.length (heap st)).

(** [setNode(fullPath, type, eventType)] at time [now = Date.now()]. *)
Definition setNode (st : TreeState) (fullPath : path) (ty : ntype)
    (et : option event_kind) (now : Z) : TreeState :=
  let '(st, parent) := ensureParents st fullPath in
  let nm := basename fullPath in
  let '(st, l) :=
    match nodes_get st fullPath with
    | Some l => (st, l)
    | None =>
        let '(st, l) := alloc st (createNode fullPath ty) in
        let st := modify_node st parent (fun n =>
                    set_children (JsMap.set String.eqb (children n) nm l) n) in
        (with_nodes st (JsMap.set path_eqb (nodes st) fullPath l), l)
    end in
  let st := modify_node st l (fun n =>
              set_ghost false 0 (set_type ty (set_event et (Some now) n))) in
  let st := with_ghosts st (JsMap.delete path_eqb (ghosts st) fullPath) in
  let st := addToHistory st l in
  propagateToParents st fullPath et now.

(** [removeNode(fullPath, eventType)] at time [now = Date.now()]. *)
Definition removeNode (st : TreeState) (fullPath : path)
    (et : option event_kind) (now : Z) : TreeState :=
  match nodes_get st fullPath with
  | None => st
  | Some l =>
      let st := modify_node st l (fun n =>
                  set_event et (Some now) (set_ghost true 0 n)) in
      let st := match heap_get (heap st) l with
                | Some n => if ntype_eqb (type n) Directory
                            then markChildrenAsGhosts (fuel_of st) st l else st
                | None => st
                end in
      let st := with_ghosts st (JsMap.set path_eqb (ghosts st) fullPath
                                  {| gnode := l; deathTime := now; fadeStep := 0 |}) in
      let st := addToHistory st l in
      propagateToParents st fullPath et now
  end.

(** [removeFromNodesMap(node)] *)
Fixpoint removeFromNodesMap (fuel : nat) (st : TreeState) (l : loc) : TreeState :=
  match fuel with
  | O => st
  | S f =>
      let st := match loc_path st l with
                | Some p => with_nodes st (JsMap.delete path_eqb (nodes st) p)
                | None => st
                end in
      fold_left (fun st '(_, c) => removeFromNodesMap f st c) (loc_children st l) st
  end.

(** [fullyRemoveNode(fullPath)] *)
Definition fullyRemoveNode (st : TreeState) (fullPath : path) : TreeState :=
  match nodes_get st fullPath with
  | None => st
  | Some l =>
      let parentPath := dirname fullPath in
      let st := match nodes_get st parentPath, heap_get (heap st) l with
                | Some pl, Some n =>
                    modify_node st pl (fun pn =>
                      set_children (JsMap.delete String.eqb (children pn) (name n)) pn)
                | _, _ => st
                end in
      let st := removeFromNodesMap (fuel_of st) st l in
      with_history st (filter (fun x => match loc_path st x with
                                        | Some p => negb (path_eqb p fullPath)
                                        | None => true end) (history st))
  end.

(** The [for ... of this.ghosts] loop of [advanceGhosts]: the only entry
    deleted during the iteration is the current one, so iterating over the
    entries as they were when the loop started visits the same entries. *)
Fixpoint advance_loop (entries : list (path * ghost)) (st : TreeState)
    (removed : bool) : TreeState * bool :=
  match entries with
  | [] => (st, removed)
  | (p, g) :: rest =>
      let step := S (fadeStep g) in
      let st := with_ghosts st (JsMap.set path_eqb (ghosts st) p
                  {| gnode := gnode g; deathTime := deathTime g; fadeStep := step |}) in
      let st := modify_node st (gnode g) (fun n => set_ghost (isGhost n) step n) in
      if Nat.leb (ghostFadeSteps st) step then
        let st := fullyRemoveNode st p in
        let st := with_ghosts st (JsMap.delete path_eqb (ghosts st) p) in
        advance_loop rest st true
      else advance_loop rest st removed
  end.

(** [advanceGhosts()] *)
Definition advanceGhosts (st : TreeState) : TreeState * bool :=
  advance_loop (ghosts st) st false.

(** [calculateNodeHeat(node, now)]: the new heap and the node's heat. *)
Fixpoint calculateNodeHeat (fuel : nat) (st : TreeState) (l : loc) (now : Z)
    : TreeState * R :=
  match fuel with
  | O => (st, 0%R)
  | S f =>
      match heap_get (heap st) l with
      | None => (st, 0%R)
      | Some n =>
          let ownHeat := calculateHeat (eventType n) (eventTime n) now in
          let '(st, hv) :=
            if ntype_eqb (type n) Directory && negb (Nat.eqb (List.length (children n)) 0)
            then
              let '(st, childHeats) :=
                fold_left (fun '(st, hs) '(_, c) =>
                             let '(st, v) := calculateNodeHeat f st c now in
                             (st, hs ++ [v]))
                          (children n) (st, []) in
              (st, calculateDirHeat childHeats ownHeat)
            else (st, ownHeat) in
          let st := modify_node st l (set_heat hv) in
          match heap_get (heap st) l with
          | Some n' =>
              if isGhost n' && Nat.ltb (ghostFadeStep n') (ghostFadeSteps st) then
                let hv' := Rmax hv (90 - INR (ghostFadeStep n') * 25) in
                (modify_node st l (set_heat hv'), hv')
              else (st, hv)
          | None => (st, hv)
          end
      end
  end.

(** [calculateAllHeat(now)] *)
Definition calculateAllHeat (st : TreeState) (now : Z) : TreeState :=
  fst (calculateNodeHeat (fuel_of st) st (root st) now).

(** [isInHistory(path)] *)
Definition isInHistory (st : TreeState) (p : path) : bool :=
  existsb (fun x => match loc_path st x with
                    | Some q => path_eqb q p
                    | None => false end) (history st).

(** [isHot(undefined)] is [false]. *)
Definition isHot_opt (h : option R) : bool :=
  match h with Some v => isHot v | None => false end.

(** [getChangeCount(node)] *)
Fixpoint getChangeCount (fuel : nat) (st : TreeState) (l : loc) : nat :=
  match fuel with
  | O => 0
  | S f =>
      match heap_get (heap st) l with
      | None => 0
      | Some n =>
          if negb (ntype_eqb (type n) Directory) then 0 else
          fold_left (fun count '(_, c) =>
              match heap_get (heap st) c with
              | None => count
              | Some cn =>
                  let count := if isHot_opt (heat cn) then S count else count in
                  if ntype_eqb (type cn) Directory
                  then count + getChangeCount f st c else count
              end) (children n) 0
      end
  end.

(** The methods of [TreeState.prototype], in source order. *)
Definition TreeState_methods : list string :=
  ["getPathSegments"; "ensureParents"; "setNode"; "removeNode";
   "markChildrenAsGhosts"; "propagateToParents"; "addToHistory";
   "advanceGhosts"; "fullyRemoveNode"; "removeFromNodesMap";
   "calculateAllHeat"; "calculateNodeHeat"; "isInHistory"; "getChangeCount";
   "buildFromPaths"; "getAllNodes"]%string.

(** [advanceGhosts()] called [n] times in a row. *)
Fixpoint advanceGhosts_n (n : nat) (st : TreeState) : TreeState :=
  match n with
  | O => st
  | S k => advanceGhosts_n k (fst (advanceGhosts st))
  end.

(** [this.nodes.get(p)] dereferenced. *)
Definition node_at (st : TreeState) (p : path) : option node :=
  match nodes_get st p with
  | Some l => heap_get (heap st) l
  | None => None
  end.

(** [l] is the object [this.nodes.get(p)]. *)
Definition is_node_at (st : TreeState) (p : path) (l : loc) : bool :=
  match nodes_get st p with Some l' => Nat.eqb l l' | None => false end.

End Tree.

(* ------------------------------------------------------------------ *)
(** ** Layout engine ([src/lib/layout.mjs]) *)

Module Layout.
Import Heat Tree.
Local Open Scope R_scope.

(** [Array.prototype.sort(cmp)]: a stable sort where [cmp a b = Gt]
    (a positive comparator result) puts [a] after [b]. *)
Fixpoint sort_insert {A} (cmp : A -> A -> comparison) (x : A) (l : list A) : list A :=
  match l with
  | [] => [x]
  | y :: ys => match cmp y x with
               | Gt => x :: y :: ys
               | _ => y :: sort_insert cmp x ys
               end
  end.

Definition js_sort {A} (cmp : A -> A -> comparison) (l : list A) : list A :=
  fold_left (fun acc x => sort_insert cmp x acc) l [].

(** The sign of the JS number [a - b] for reals. *)
Definition sign_sub (a b : R) : comparison :=
  if Rlt_dec a b then Lt else if Rlt_dec b a then Gt else Eq.

(** [LAYOUT_CONFIG] *)
Definition headerRows : Z := 2.
Definition footerRows : Z := 1.
Definition minRows : Z := 5.

(** [WEIGHT] *)
Definition WEIGHT_base_ROOT : R := 10000.
Definition WEIGHT_git (c : Git.git_class) : R :=
  match c with
  | Git.Conflict => 800 | Git.Unstaged => 700 | Git.Both => 650
  | Git.Staged => 600 | Git.Untracked => 500
  end.
Definition WEIGHT_heat_hot : R := 350.
Definition WEIGHT_type_file : R := 50.
Definition WEIGHT_type_dir : R := 100.
(** [WEIGHT.event[eventType] ?? WEIGHT.event.none] *)
Definition WEIGHT_event (k : event_kind) : R :=
  match k with
  | Unlink | UnlinkDir => 150
  | Add | AddDir => 75
  | Change => 50
  | Rename => 25
  | ChildChange => 0
  end.
Definition WEIGHT_context_hasChangedChildren : R := 200.
Definition WEIGHT_context_inHistory : R := 100.
Definition WEIGHT_context_ghost : R := 50.
Definition WEIGHT_filter_match : R := 9000.

(** A [GitStatus] instance as read by [getStatus]; keys are path strings. *)
Record GitStatus := mkGitStatus {
  isGitRepo : bool;
  fileStatus : Git.status_map;
  dirStatus : Git.status_map
}.

(** [gitStatus.getStatus(path, type)] *)
Definition getStatus (gs : GitStatus) (p : string) (ty : ntype) : option Git.git_info :=
  if negb (isGitRepo gs) then None
  else match ty with
       | File => Git.map_get (fileStatus gs) p
       | Directory => Git.map_get (dirStatus gs) p
       end.

(** [gitStatus?.getStatus(path, type)] *)
Definition getStatus_opt (gs : option GitStatus) (p : string) (ty : ntype)
    : option Git.git_info :=
  match gs with Some g => getStatus g p ty | None => None end.

Local Set Warnings "-register-all".

(** Layout nodes ([createLayoutNode]); [lchildren] is the flattened list
    of descendants that [flattenTree] pushes into [layoutNode.children]. *)
Inductive lnode := mkLNode {
  lpath : path;
  lname : string;
  ltype : ntype;
  depth : nat;
  isLast : bool;
  parentContinues : list bool;
  lheat : R;
  leventType : option event_kind;
  leventTime : option Z;
  lisGhost : bool;
  lghostFadeStep : nat;
  lchildren : list lnode;
  lcollapsed : bool;
  childCount : nat;
  changeCount : nat
}.

(** [createLayoutNode(treeNode, depth, isLast, parentContinues)] *)
Definition createLayoutNode (tn : node) (d : nat) (last : bool)
    (pc : list bool) : lnode :=
  {| lpath := npath tn; lname := name tn; ltype := type tn; depth := d;
     isLast := last; parentContinues := pc;
     lheat := match heat tn with Some v => v | None => 0 end;
     leventType := eventType tn; leventTime := eventTime tn;
     lisGhost := isGhost tn; lghostFadeStep := ghostFadeStep tn;
     lchildren := []; lcollapsed := false;
     childCount := List.length (children tn); changeCount := 0 |}.

Definition with_layout_children (ln : lnode) (cs : list lnode) (cc : nat) : lnode :=
  {| lpath := lpath ln; lname := lname ln; ltype := ltype ln; depth := depth ln;
     isLast := isLast ln; parentContinues := parentContinues ln;
     lheat := lheat ln; leventType := leventType ln; leventTime := leventTime ln;
     lisGhost := lisGhost ln; lghostFadeStep := lghostFadeStep ln;
     lchildren := cs; lcollapsed := lcollapsed ln;
     childCount := childCount ln; changeCount := cc |}.

Inductive match_kind := Glob | Text.

(** A display line ([lineType] is always ['node']). *)
Record line := mkLine {
  lnode_of : lnode;
  displayOrder : nat;
  weight : R;
  filterMatch : option match_kind
}.

Record layout_result := mkLayout {
  lines : list line;
  layout_nodes : list lnode;
  totalRows : nat;
  availableRows : Z;
  collapsed : bool;
  terminalRows : Z;
  layoutRootPath : string
}.

(** [calculateAvailableRows(terminalRows)] *)
Definition calculateAvailableRows (terminalRows : Z) : Z :=
  Z.max (terminalRows - headerRows - footerRows) minRows.

Definition strip_leading_slash (s : string) : string :=
  match s with String "/" r => r | _ => s end.

Definition strip_trailing_slash (s : string) : string :=
  match String.get (String.length s - 1) s with
  | Some "/"%char => substring 0 (String.length s - 1) s
  | _ => s
  end.

Section WithExternals.
(** [a.name.localeCompare(b.name)] (its sign). *)
Variable localeCompare : string -> string -> comparison.
(** [micromatch.isMatch(str, pattern, { nocase: true })] *)
Variable isMatch : string -> string -> bool.

(** [matchesFilter(node, pattern, rootPath)] *)
Definition matchesFilter (ln : lnode) (pattern rootPath : string) : option match_kind :=
  if String.eqb pattern "" then None else
  let relativePath :=
    if negb (String.eqb rootPath "") && negb (String.eqb (path_string (lpath ln)) "")
    then JsString.replace_first (path_string (lpath ln)) (rootPath ++ "/") ""
    else lname ln in
  let isGlob := JsString.includes pattern "*" || JsString.includes pattern "?" in
  if JsString.includes pattern "/" then
    let cleanPattern := strip_leading_slash pattern in
    if negb isGlob then
      let dirPattern := strip_trailing_slash cleanPattern in
      if negb (JsString.includes dirPattern "/") then
        if String.eqb (JsString.toLowerCase relativePath) (JsString.toLowerCase dirPattern)
        then Some Text else None
      else if JsString.includes (JsString.toLowerCase relativePath)
                                (JsString.toLowerCase dirPattern)
      then Some Text else None
    else if isMatch relativePath cleanPattern then Some Glob else None
  else if isGlob then
    (if isMatch (lname ln) pattern then Some Glob else None)
  else if JsString.includes (JsString.toLowerCase (lname ln)) (JsString.toLowerCase pattern)
  then Some Text else None.

(** The comparator of the children sort in [flattenTree]. *)
Definition child_cmp (gs : option GitStatus) (a b : node) : comparison :=
  if negb (ntype_eqb (type a) (type b)) then
    (if ntype_eqb (type a) Directory then Lt else Gt)
  else
  let git_first :=
    match gs with
    | Some g =>
        let aHasGit := match getStatus g (path_string (npath a)) (type a) with
                       | Some _ => true | None => false end in
        let bHasGit := match getStatus g (path_string (npath b)) (type b) with
                       | Some _ => true | None => false end in
        if Bool.eqb aHasGit bHasGit then None
        else Some (if aHasGit then Lt else Gt)
    | None => None
    end in
  match git_first with
  | Some c => c
  | None =>
      match heat a, heat b with
      | Some ha, Some hb =>
          if Rlt_dec 5 (Rabs (ha - hb)) then sign_sub hb ha
          else localeCompare (name a) (name b)
      | _, _ => localeCompare (name a) (name b)   (* NaN > 5 is false *)
      end
  end.

Definition loc_cmp (st : TreeState) (gs : option GitStatus) (a b : loc) : comparison :=
  match heap_get (heap st) a, heap_get (heap st) b with
  | Some na, Some nb => child_cmp gs na nb
  | _, _ => Eq
  end.

(** [flattenTree(treeNode, depth, isLast, parentContinues, treeState, gitStatus)] *)
Fixpoint flattenTree (fuel : nat) (st : TreeState) (gs : option GitStatus)
    (l : loc) (d : nat) (last : bool) (pc : list bool) : list lnode :=
  match fuel with
  | O => []
  | S f =>
      match heap_get (heap st) l with
      | None => []
      | Some tn =>
          let ln := createLayoutNode tn d last pc in
          let cc := if ntype_eqb (type tn) Directory
                    then getChangeCount (fuel_of st) st l else 0%nat in
          if ntype_eqb (type tn) Directory && negb (Nat.eqb (List.length (children tn)) 0)
          then
            let kids := js_sort (loc_cmp st gs) (map snd (children tn)) in
            let newPC := if Nat.ltb 0 d then pc ++ [negb last] else pc in
            let n := List.length kids in
            let childNodes :=
              List.concat (map (fun '(i, c) =>
                             flattenTree f st gs c (S d) (Nat.eqb i (n - 1)%nat) newPC)
                          (combine (seq 0 n) kids)) in
            with_layout_children ln childNodes cc :: childNodes
          else [with_layout_children ln [] cc]
      end
  end.

(** [calculateLineWeight(node, treeState, gitStatus, filterPattern, rootPath)] *)
Definition calculateLineWeight (ln : lnode) (st : TreeState) (gs : option GitStatus)
    (filterPattern rootPath : string) : R :=
  if Nat.eqb (depth ln) 0 then WEIGHT_base_ROOT else
  let w := match ltype ln with File => WEIGHT_type_file | Directory => WEIGHT_type_dir end in
  let w := match getStatus_opt gs (path_string (lpath ln)) (ltype ln) with
           | Some gi => w + WEIGHT_git (Git.status gi)
           | None => w
           end in
  let w := if isHot (lheat ln) then w + WEIGHT_heat_hot else w in
  let w := match leventType ln with Some k => w + WEIGHT_event k | None => w end in
  let w := if ntype_eqb (ltype ln) Directory && Nat.ltb 0 (changeCount ln)
           then w + WEIGHT_context_hasChangedChildren else w in
  let w := if isInHistory st (lpath ln) then w + WEIGHT_context_inHistory else w in
  let w := if lisGhost ln then w + WEIGHT_context_ghost else w in
  let w := match matchesFilter ln filterPattern rootPath with
           | Some _ => w + WEIGHT_filter_match
           | None => w
           end in
  w + lheat ln.

(** [generateAllLines(treeState, gitStatus, filterPattern, rootPath)] *)
Definition generateAllLines (st : TreeState) (gs : option GitStatus)
    (filterPattern rootPath : string) : list line :=
  let allNodes := flattenTree (fuel_of st) st gs (root st) 0 true [] in
  map (fun '(i, n) =>
         {| lnode_of := n; displayOrder := i;
            weight := calculateLineWeight n st gs filterPattern rootPath;
            filterMatch := matchesFilter n filterPattern rootPath |})
      (combine (seq 0 (List.length allNodes)) allNodes).

(** [selectVisibleLines(allLines, availableRows)] *)
Definition selectVisibleLines (allLines : list line) (availableRows : Z) : list line :=
  if Z.leb (Z.of_nat (List.length allLines)) availableRows then allLines else
  let sorted := js_sort (fun a b => sign_sub (weight b) (weight a)) allLines in
  let selected := firstn (Z.to_nat availableRows) sorted in
  js_sort (fun a b => Nat.compare (displayOrder a) (displayOrder b)) selected.

(** [generateLayout(treeState, { terminalSize, gitStatus, filterPattern })]
    with [Date.now() = now]; also returns the tree state, whose heats
    [calculateAllHeat] has updated. *)
Definition generateLayout (st : TreeState) (rows : Z) (gs : option GitStatus)
    (filterPattern : string) (now : Z) : TreeState * layout_result :=
  let rootPathS := match heap_get (heap st) (root st) with
                   | Some rn => path_string (npath rn)
                   | None => ""%string
                   end in
  let avail := calculateAvailableRows rows in
  let st := calculateAllHeat st now in
  let allLines := generateAllLines st gs filterPattern rootPathS in
  let visibleLines := selectVisibleLines allLines avail in
  (st, {| lines := visibleLines;
          layout_nodes := map lnode_of visibleLines;
          totalRows := List.length allLines;
          availableRows := avail;
          collapsed := Nat.ltb (List.length visibleLines) (List.length allLines);
          terminalRows := rows;
          layoutRootPath := rootPathS |}).

End WithExternals.
End Layout.

(* ------------------------------------------------------------------ *)
(** ** Orchestrator timers ([src/unnamed/part_000]) *)

Module Orchestrator.
Import Tree.

(** Member lookup of a method on a [TreeState] instance: [Some m] when
    [TreeState.prototype] defines [m], [undefined] otherwise. *)
Definition treeState_method (m : string) : option string :=
  if existsb (String.eqb m) TreeState_methods then Some m else None.

(** How the [async] timer callback settles: it throws a [TypeError]
    ([x is not a function]) or goes on after calling the named method. *)
Inductive tick_outcome := Threw_TypeError | Called (m : string).

(** The body of [breatheTimer]:
    [const hasHotItems = treeState.hasHotItems()] is its first statement. *)
Definition breatheTick (st : TreeState) : tick_outcome :=
  match treeState_method "hasHotItems" with
  | None => Threw_TypeError
  | Some m => Called m
  end.

End Orchestrator.

(* ------------------------------------------------------------------ *)
(** ** Display helpers of [src/lib/heat.mjs] *)

Module HeatView.
Import Heat.
Local Open Scope R_scope.

(** [HEAT_CONFIG.barSegments] *)
Definition barSegments : Z := 6.

(** [Math.round(x)]: the nearest integer, halves rounded up. *)
Definition js_round (x : R) : Z := Int_part (x + / 2).

(** The two characters of a heat bar, ['█'] and ['░']. *)
Inductive bar_cell := Full | Light.

(** [c.repeat(n)]: a [RangeError] ([None]) for a negative count. *)
Definition js_repeat (c : bar_cell) (n : Z) : option (list bar_cell) :=
  if Z.ltb n 0 then None else Some (repeat c (Z.to_nat n)).

(** [heatBar(heat)] *)
Definition heatBar (heat : R) : option (list bar_cell) :=
  let segments := barSegments in
  let filled := js_round (heat / maxHeat * IZR segments) in
  let empty := (segments - filled)%Z in
  match js_repeat Full filled with
  | None => None
  | Some a => match js_repeat Light empty with
              | None => None
              | Some b => Some (a ++ b)
              end
  end.

(** [heatBar(undefined)]: [Math.round(NaN)] is [NaN], and
    [repeat(NaN)] repeats zero times. *)
Definition heatBar_opt (heat : option R) : option (list bar_cell) :=
  match heat with Some h => heatBar h | None => Some [] end.

(** [`${n}`] for an integer [n]. *)
Fixpoint digits_go (fuel : nat) (n : Z) (acc : string) : string :=
  match fuel with
  | O => acc
  | S f =>
      let acc := String (ascii_of_nat (48 + Z.to_nat (n mod 10))) acc in
      if Z.ltb n 10 then acc else digits_go f (n / 10) acc
  end.

Definition number_to_string (z : Z) : string :=
  let fuel := S (Z.to_nat (Z.log2 (Z.abs z))) in
  if Z.ltb z 0 then ("-" ++ digits_go fuel (- z) "")%string
  else digits_go fuel z ""%string.

(** [formatTimeAgo(eventTime, now)]; [!eventTime] holds for [null],
    [undefined] and the timestamp [0]. *)
Definition formatTimeAgo (eventTime : option Z) (now : Z) : string :=
  match eventTime with
  | None => ""
  | Some t =>
      if Z.eqb t 0 then "" else
      let elapsed := (now - t)%Z in
      let seconds := (elapsed / 1000)%Z in
      let minutes := (seconds / 60)%Z in
      if Z.ltb seconds 60 then (number_to_string seconds ++ "s")%string
      else if Z.ltb minutes 60 then (number_to_string minutes ++ "m")%string
      else (number_to_string (minutes / 60) ++ "h")%string
  end.

(** The colour names returned by [getHeatColor]. *)
Inductive heat_color := BrightRed | Red | Magenta | Cyan | Blue.

(** [getHeatColor(heat)] *)
Definition getHeatColor (heat : R) : heat_color :=
  if Rle_dec 80 heat then BrightRed
  else if Rle_dec 60 heat then Red
  else if Rle_dec 40 heat then Magenta
  else if Rle_dec 20 heat then Cyan
  else Blue.

(** [getHeatColor(undefined)]: every comparison with [undefined] is false. *)
Definition getHeatColor_opt (heat : option R) : heat_color :=
  match heat with Some h => getHeatColor h | None => Blue end.

(** The rank of a colour in the order of the tests of [getHeatColor]. *)
Definition color_rank (c : heat_color) : nat :=
  match c with BrightRed => 4 | Red => 3 | Magenta => 2 | Cyan => 1 | Blue => 0 end.

End HeatView.

(* ------------------------------------------------------------------ *)
(** ** Directory status and counts of [GitStatus] ([src/lib/file-watcher.mjs]) *)

Module GitAgg.
Import Git.
Local Open Scope string_scope.

(** The backward scan of Node's [path.posix.dirname] over the indices
    [i, i-1, ..., 1]: the index of the slash that ends the directory part. *)
Fixpoint dirname_scan (s : string) (i : nat) (matchedSlash : bool) : option nat :=
  match i with
  | O => None
  | S i' =>
      if is_char (String.get i s) "/" then
        (if matchedSlash then dirname_scan s i' matchedSlash else Some i)
      else dirname_scan s i' false
  end.

(** [path.dirname(path)] (POSIX) *)
Definition dirname (s : string) : string :=
  if Nat.eqb (String.length s) 0 then "." else
  let hasRoot := is_char (String.get 0 s) "/" in
  match dirname_scan s (String.length s - 1) true with
  | None => if hasRoot then "/" else "."
  | Some e => if hasRoot && Nat.eqb e 1 then "//" else substring 0 e s
  end.

(** [statusPriority(status)] *)
Definition statusPriority (c : git_class) : nat :=
  match c with
  | Conflict => 5 | Unstaged => 4 | Both => 3 | Staged => 2 | Untracked => 1
  end.

(** The [while] loop of [aggregateDirStatus] for one file.  It ends at
    [rootPath] or once [dir] is shorter than [rootPath]; every [dirname]
    step shortens [dir] until it reaches ["/"] or ["."], so [fuel] covers
    every run of the loop that ends. *)
Fixpoint agg_walk (fuel : nat) (rootPath : string) (st : git_info) (dir : string)
    (dirStatus : status_map) : status_map :=
  match fuel with
  | O => dirStatus
  | S f =>
      if Nat.ltb (String.length dir) (String.length rootPath) then dirStatus else
      let dirStatus :=
        match map_get dirStatus dir with
        | None => map_set dirStatus dir st
        | Some existing =>
            if Nat.ltb (statusPriority (status existing)) (statusPriority (status st))
            then map_set dirStatus dir st else dirStatus
        end in
      if String.eqb dir rootPath then dirStatus
      else agg_walk f rootPath st (dirname dir) dirStatus
  end.

(** [aggregateDirStatus()] *)
Definition aggregateDirStatus (rootPath : string) (fileStatus dirStatus : status_map)
    : status_map :=
  fold_left (fun ds '(filePath, st) =>
               let dir := dirname filePath in
               agg_walk (S (S (String.length dir))) rootPath st dir ds)
            fileStatus dirStatus.

(** The maps [refresh()] leaves behind once [git status] printed
    [stdout]: [fileStatus] is filled from an empty map, [dirStatus] is
    cleared and rebuilt. *)
Definition refresh_maps (rootPath stdout : string) : status_map * status_map :=
  let fileStatus := fetchFileStatusInto rootPath stdout [] in
  (fileStatus, aggregateDirStatus rootPath fileStatus []).

(** [hasChanges()] *)
Definition hasChanges (fileStatus : status_map) : bool :=
  Nat.ltb 0 (List.length fileStatus).

Record counts := mkCounts {
  c_conflict : nat; c_unstaged : nat; c_staged : nat; c_untracked : nat
}.

(** [getCounts()] *)
Definition getCounts (fileStatus : status_map) : counts :=
  fold_left (fun c '(_, s) =>
      match status s with
      | Conflict => {| c_conflict := S (c_conflict c); c_unstaged := c_unstaged c;
                       c_staged := c_staged c; c_untracked := c_untracked c |}
      | Unstaged | Both =>
                    {| c_conflict := c_conflict c; c_unstaged := S (c_unstaged c);
                       c_staged := c_staged c; c_untracked := c_untracked c |}
      | Staged => {| c_conflict := c_conflict c; c_unstaged := c_unstaged c;
                     c_staged := S (c_staged c); c_untracked := c_untracked c |}
      | Untracked => {| c_conflict := c_conflict c; c_unstaged := c_unstaged c;
                        c_staged := c_staged c; c_untracked := S (c_untracked c) |}
      end) fileStatus (mkCounts 0 0 0 0).

End GitAgg.

(* ================================================================== *)
(** * Properties *)

Module HeatFacts.
Import Heat.
Local Open Scope R_scope.

Lemma EVENT_WEIGHTS_pos (k : option event_kind) : 0 < EVENT_WEIGHTS k.
Proof. destruct k as [[]|]; simpl; lra. Qed.

Lemma Rpower2_pos (x : R) : 0 < Rpower 2 x.
Proof. unfold Rpower. apply exp_pos. Qed.

(** Away from the timestamp [0], the code computes the specified heat. *)
Lemma calculateHeat_spec (k : option event_kind) (t now : Z) :
  t <> 0%Z -> calculateHeat k (Some t) now = spec_heat k (Some t) now.
Proof.
  intros Ht. unfold calculateHeat, spec_heat.
  destruct (Z.eqb_spec t 0); [contradiction|reflexivity].
Qed.

Lemma calculateHeat_nonneg (k : option event_kind) (t : option Z) (now : Z) :
  0 <= calculateHeat k t now.
Proof.
  unfold calculateHeat. destruct t as [t|]; [|lra].
  destruct (Z.eqb t 0); [lra|].
  apply Rmin_glb; [|unfold maxHeat; lra].
  left. apply Rmult_lt_0_compat; [apply EVENT_WEIGHTS_pos|apply Rpower2_pos].
Qed.

Lemma calculateHeat_le_max (k : option event_kind) (t : option Z) (now : Z) :
  calculateHeat k t now <= maxHeat.
Proof.
  unfold calculateHeat. destruct t as [t|]; [|unfold maxHeat; lra].
  destruct (Z.eqb t 0); [unfold maxHeat; lra|]. apply Rmin_r.
Qed.

Lemma Rpower2_le (x y : R) : x <= y -> Rpower 2 x <= Rpower 2 y.
Proof.
  intros [Hlt | ->]; [left | right; reflexivity].
  apply Rpower_lt; [lra|exact Hlt].
Qed.

(** Heat does not increase as [now] advances. *)
Lemma calculateHeat_antitone (k : option event_kind) (t : option Z) (n1 n2 : Z) :
  (n1 <= n2)%Z -> calculateHeat k t n2 <= calculateHeat k t n1.
Proof.
  intros Hle. unfold calculateHeat. destruct t as [t|]; [|lra].
  destruct (Z.eqb t 0); [lra|].
  assert (Hd : IZR (n1 - t) <= IZR (n2 - t)) by (apply IZR_le; lia).
  assert (Hp : Rpower 2 (- IZR (n2 - t) / halfLife)
               <= Rpower 2 (- IZR (n1 - t) / halfLife)).
  { apply Rpower2_le. unfold halfLife, Rdiv.
    apply Rmult_le_compat_r; lra. }
  pose proof (EVENT_WEIGHTS_pos k) as Hw.
  assert (Hm : EVENT_WEIGHTS k * Rpower 2 (- IZR (n2 - t) / halfLife)
               <= EVENT_WEIGHTS k * Rpower 2 (- IZR (n1 - t) / halfLife))
    by (apply Rmult_le_compat_l; lra).
  simpl. unfold Rmin.
  destruct (Rle_dec _ maxHeat); destruct (Rle_dec _ maxHeat); lra.
Qed.

(** One half-life later, the unclamped decay term is halved. *)
Lemma spec_heat_unclamped_half_life (k : option event_kind) (t now : Z) :
  spec_heat_unclamped k t (now + 10000) = / 2 * spec_heat_unclamped k t now.
Proof.
  unfold spec_heat_unclamped.
  replace (now + 10000 - t)%Z with ((now - t) + 10000)%Z by ring.
  rewrite plus_IZR.
  replace (- (IZR (now - t) + IZR 10000) / halfLife)
    with (- IZR (now - t) / halfLife + - (1))
    by (unfold halfLife; field).
  rewrite Rpower_plus, Rpower_Ropp, Rpower_1 by lra.
  field.
Qed.

(** (C3) [calculateHeat] answers [0] both when the event time is none and,
    through the falsy test [!eventTime], when it is the timestamp [0]:
    there the specified formula gives [weight * 2^0 = 60] for a change
    observed at [now = 0]. *)
Theorem calculateHeat_zero_time_diverges :
  calculateHeat (Some Change) (Some 0%Z) 0%Z = 0 /\
  spec_heat (Some Change) (Some 0%Z) 0%Z = 60.
Proof.
  split; [reflexivity|].
  unfold spec_heat, EVENT_WEIGHTS, maxHeat.
  rewrite Z.sub_diag.
  replace (- IZR 0 / halfLife) with 0 by (unfold halfLife; simpl; field).
  rewrite Rpower_O by lra.
  rewrite Rmult_1_r. apply Rmin_left. lra.
Qed.

Lemma fold_max_ge_acc (xs : list R) (x : R) : x <= fold_left Rmax xs x.
Proof.
  revert x. induction xs as [|y ys IH]; intros x; simpl; [lra|].
  eapply Rle_trans; [apply Rmax_l|apply IH].
Qed.

Lemma fold_max_le (B : R) (xs : list R) (x : R) :
  x <= B -> Forall (fun y => y <= B) xs -> fold_left Rmax xs x <= B.
Proof.
  revert x. induction xs as [|y ys IH]; intros x Hx Hxs; simpl; [exact Hx|].
  inversion Hxs; subst. apply IH; [apply Rmax_lub; assumption|assumption].
Qed.

Lemma fold_sum_nonneg (xs : list R) (acc : R) :
  0 <= acc -> Forall (fun y => 0 <= y) xs -> 0 <= fold_left Rplus xs acc.
Proof.
  revert acc. induction xs as [|y ys IH]; intros acc Hacc Hxs; simpl; [exact Hacc|].
  inversion Hxs; subst. apply IH; [lra|assumption].
Qed.

(** (C4, counterexample) A child heat above [MAX_HEAT] is clamped below
    the maximum child heat. *)
Lemma calculateDirHeat_clamp_counterexample :
  calculateDirHeat [150] 0 < Rmax 0 (js_max_list 150 []).
Proof.
  unfold calculateDirHeat, js_max_list, dirChildSumWeight, maxHeat; simpl.
  unfold Rmin, Rmax.
  repeat match goal with |- context [Rle_dec ?a ?b] => destruct (Rle_dec a b) end;
    lra.
Qed.

(** (C4, amended) [calculateDirHeat] is [ownHeat] without children and
    [min(MAX_HEAT, max(own, max(children) + 0.1 * sum(children)))] with
    children, for every list of child heats and every [own]; when the
    child heats lie in [[0, MAX_HEAT]] and [own <= MAX_HEAT], it
    dominates both [own] and every child heat. *)
Theorem calculateDirHeat_formula_dominance (c : R) (cs : list R) (own : R) :
  calculateDirHeat [] own = own /\
  calculateDirHeat (c :: cs) own =
    Rmin maxHeat (Rmax own (js_max_list c cs + dirChildSumWeight * fold_left Rplus (c :: cs) 0)) /\
  (Forall (fun x => 0 <= x <= maxHeat) (c :: cs) -> own <= maxHeat ->
   Rmax own (js_max_list c cs) <= calculateDirHeat (c :: cs) own).
Proof.
  split; [reflexivity|].
  split.
  - unfold calculateDirHeat. rewrite Rmin_comm, Rmax_comm, (Rmult_comm dirChildSumWeight).
    reflexivity.
  - intros Hc Hown. unfold calculateDirHeat.
    inversion Hc as [|? ? Hc0 Hcs]; subst.
    assert (Hmax : js_max_list c cs <= maxHeat).
    { apply fold_max_le; [apply Hc0|].
      eapply Forall_impl; [|exact Hcs]. intros y Hy; apply Hy. }
    assert (Hsum : 0 <= fold_left Rplus (c :: cs) 0).
    { apply fold_sum_nonneg; [lra|]. constructor; [apply Hc0|].
      eapply Forall_impl; [|exact Hcs]. intros y Hy; apply Hy. }
    unfold dirChildSumWeight in *. unfold maxHeat in *.
    unfold Rmin, Rmax.
    repeat match goal with |- context [Rle_dec ?a ?b] => destruct (Rle_dec a b) end;
      lra.
Qed.

Lemma calculateDirHeat_formula_dominance_witness :
  Forall (fun x => 0 <= x <= maxHeat) [50; 30] /\ 10 <= maxHeat /\
  Rmax 10 (js_max_list 50 [30]) <= calculateDirHeat [50; 30] 10.
Proof.
  assert (H : Forall (fun x => 0 <= x <= maxHeat) [50; 30])
    by (unfold maxHeat; repeat constructor; lra).
  assert (H' : 10 <= maxHeat) by (unfold maxHeat; lra).
  split; [exact H|]. split; [exact H'|].
  exact (proj2 (proj2 (calculateDirHeat_formula_dominance 50 [30] 10)) H H').
Defined.

End HeatFacts.

Module GitFacts.
Import Git.
Local Open Scope string_scope.

Lemma string_eqb_app_l (r a b : string) :
  String.eqb (r ++ a) (r ++ b) = String.eqb a b.
Proof.
  induction r as [|c r IH]; simpl; [reflexivity|].
  rewrite Ascii.eqb_refl. exact IH.
Qed.

Definition staged_info : git_info :=
  {| symbol := GStaged; color := GStaged; status := Staged |}.

(** (C9) The porcelain line [R  old.txt -> new.txt] records a staged
    status for the right-hand path [new.txt] only: processing it sets
    exactly that key of the target map, and from the fresh map that
    [refresh] passes in, [old.txt] gets no entry. *)
Theorem rename_line_records_new_path_only (rootPath : string) (m : status_map) :
  processLine rootPath m "R  old.txt -> new.txt" =
    map_set m (rootPath ++ "/" ++ "new.txt") staged_info /\
  fetchFileStatusInto rootPath ("R  old.txt -> new.txt" ++ newline) [] =
    [(rootPath ++ "/" ++ "new.txt", staged_info)] /\
  map_get (fetchFileStatusInto rootPath ("R  old.txt -> new.txt" ++ newline) [])
          (rootPath ++ "/" ++ "old.txt") = None.
Proof.
  assert (Hline : forall m', processLine rootPath m' "R  old.txt -> new.txt" =
                      map_set m' (rootPath ++ "/" ++ "new.txt") staged_info)
    by (intros; reflexivity).
  assert (Hfetch : fetchFileStatusInto rootPath ("R  old.txt -> new.txt" ++ newline) [] =
                   [(rootPath ++ "/" ++ "new.txt", staged_info)]).
  { unfold fetchFileStatusInto. vm_compute JsString.split.
    simpl fold_left. rewrite Hline. reflexivity. }
  split; [apply Hline|]. split; [exact Hfetch|].
  rewrite Hfetch. simpl.
  rewrite string_eqb_app_l. reflexivity.
Qed.

End GitFacts.

Module TreeFacts.
Import Heat Tree.

(** (C10) [removeNode] on a path absent from the index returns at once:
    the whole tree state (index, history, ghosts and every node object)
    is unchanged. *)
Theorem removeNode_absent_noop (st : TreeState) (p : path)
    (k : option event_kind) (now : Z) :
  nodes_get st p = None -> removeNode st p k now = st.
Proof. intros H. unfold removeNode. rewrite H. reflexivity. Qed.

Lemma removeNode_absent_noop_witness :
  nodes_get (init ["r"%string] 0 0) ["r"; "x"]%string = None /\
  removeNode (init ["r"%string] 0 0) ["r"; "x"]%string (Some Unlink) 5000%Z
    = init ["r"%string] 0 0.
Proof.
  split; [reflexivity|].
  apply removeNode_absent_noop. reflexivity.
Defined.

(** (C5) A file removed while its parent directory is already fading:
    the directory [/r/a] is removed at [t = 5000] and fades two steps,
    then [/r/a/b] (still in the index) is removed.  After [ghostFadeSteps]
    (3) calls of [advanceGhosts], [/r/a/b] has left the index and the
    ghosts, but it is still in [history]: when its own fade ends,
    [fullyRemoveNode] finds it no longer indexed (the parent's removal
    dropped it) and returns before filtering [history]. *)
Theorem ghost_under_fading_dir_stays_in_history :
  let st0 := setNode (setNode (init ["r"%string] 0 0) ["r"; "a"]%string Directory
                        (Some AddDir) 1000%Z)
                     ["r"; "a"; "b"]%string File (Some Add) 1000%Z in
  let st1 := advanceGhosts_n 2 (removeNode st0 ["r"; "a"]%string (Some UnlinkDir) 5000%Z) in
  let st2 := removeNode st1 ["r"; "a"; "b"]%string (Some Unlink) 7000%Z in
  let st3 := advanceGhosts_n (ghostFadeSteps st2) st2 in
  nodes_get st1 ["r"; "a"; "b"]%string <> None /\
  ghostFadeSteps st2 = 3%nat /\
  nodes_get st3 ["r"; "a"; "b"]%string = None /\
  JsMap.get path_eqb (ghosts st3) ["r"; "a"; "b"]%string = None /\
  isInHistory st3 ["r"; "a"; "b"]%string = true.
Proof. vm_compute. repeat split; discriminate. Qed.

(** (C7, counterexample) A parent whose event is recent but has no event
    kind (the seeding [setNode(path, type, null)] leaves such directories)
    keeps no kind when a child event propagates 50 ms later. *)
Lemma propagate_recent_untyped_parent_counterexample :
  let st := setNode (init ["r"%string] 0 0) ["r"; "a"]%string Directory None 1000%Z in
  option_map eventType (node_at st ["r"; "a"]%string) = Some None /\
  option_map eventType
    (node_at (propagateToParents st ["r"; "a"; "f"]%string (Some Add) 1050%Z)
             ["r"; "a"]%string) = Some None.
Proof. vm_compute. split; reflexivity. Qed.

Lemma path_eqb_refl (p : path) : path_eqb p p = true.
Proof. induction p as [|a p IH]; simpl; [reflexivity|]. rewrite String.eqb_refl. exact IH. Qed.

Lemma path_eqb_eq (p q : path) : path_eqb p q = true -> p = q.
Proof.
  revert q. induction p as [|a p IH]; intros [|b q]; simpl; try discriminate; [reflexivity|].
  intros H. apply andb_prop in H as [H1 H2].
  apply String.eqb_eq in H1. subst. f_equal. apply IH. exact H2.
Qed.

Lemma string_length_app (a b : string) :
  String.length (a ++ b) = (String.length a + String.length b)%nat.
Proof. induction a as [|c a IH]; simpl; [reflexivity|]. rewrite IH. reflexivity. Qed.

Lemma path_fold_length (p : path) (acc : string) :
  String.length (fold_right (fun s acc => ("/" ++ s ++ acc)%string) acc p) =
  (String.length (fold_right (fun s acc => ("/" ++ s ++ acc)%string) ""%string p)
   + String.length acc)%nat.
Proof.
  induction p as [|s p IH]; [reflexivity|].
  cbn [fold_right]. rewrite !string_length_app, IH. lia.
Qed.

Lemma js_length_app_le (p x : path) : (js_length p <= js_length (p ++ x))%nat.
Proof.
  unfold js_length.
  destruct p as [|s p].
  - destruct x as [|y x]; simpl; [lia|]. lia.
  - change (path_string ((s :: p) ++ x)) with
      (fold_right (fun s acc => ("/" ++ s ++ acc)%string) ""%string ((s :: p) ++ x)).
    change (path_string (s :: p)) with
      (fold_right (fun s acc => ("/" ++ s ++ acc)%string) ""%string (s :: p)).
    rewrite fold_right_app.
    rewrite (path_fold_length (s :: p)
               (fold_right (fun s acc => ("/" ++ s ++ acc)%string) ""%string x)).
    lia.
Qed.

Lemma propagate_update_idem (now : Z) (n : node) :
  propagate_update now (propagate_update now n) = propagate_update now n.
Proof.
  unfold propagate_update.
  destruct (match eventTime n with
            | Some t => (t =? 0)%Z || (100 <? now - t)%Z
            | None => true end) eqn:Hs; simpl; [|rewrite Hs; reflexivity].
  rewrite Z.sub_diag. simpl.
  destruct (Z.eqb_spec now 0) as [->|Hn]; simpl; [|reflexivity].
  destruct n as [np nm ty et tm cs g st h]; simpl.
  destruct et as [[]|]; reflexivity.
Qed.

Lemma with_heap_eta (st : TreeState) : with_heap st (heap st) = st.
Proof. destruct st; reflexivity. Qed.

(** The heap after visiting the ancestors [r ++ firstn i rel], [i <= j]. *)
Definition visited_heap (st : TreeState) (r : path) (rel : list string)
    (j : nat) (now : Z) : list (loc * node) :=
  map (fun '(l, n) =>
         (l, if existsb (fun i => is_node_at st (r ++ firstn i rel) l) (seq 0 (S j))
             then propagate_update now n else n)) (heap st).

Lemma propagate_loop_visits (r : path) (rel : list string) (now : Z) :
  forall j fuel st, rootPath st = r -> (j < fuel)%nat -> (j < List.length rel)%nat ->
  propagate_loop fuel st (r ++ firstn j rel) now = with_heap st (visited_heap st r rel j now).
Proof.
  induction j as [|j IH]; intros fuel st Hr Hf Hj; destruct fuel as [|f]; try lia.
  - simpl. rewrite Hr. rewrite app_nil_r.
    rewrite (proj2 (Nat.ltb_ge _ _) (Nat.le_refl _)).
    unfold visited_heap. simpl. rewrite app_nil_r.
    unfold is_node_at.
    destruct (nodes_get st r) as [l|] eqn:Hl; simpl; rewrite Hr, path_eqb_refl.
    + unfold modify_node, heap_modify. f_equal.
      apply map_ext. intros [l' n]. rewrite orb_false_r, (Nat.eqb_sym l' l).
      destruct (Nat.eqb l l'); reflexivity.
    + rewrite <- (with_heap_eta st) at 1. f_equal.
      rewrite <- (map_id (heap st)) at 1. apply map_ext. intros [l' n]. reflexivity.
  - cbn [propagate_loop]. rewrite Hr.
    rewrite (proj2 (Nat.ltb_ge _ _) (js_length_app_le r _)).
    assert (Hne : path_eqb (r ++ firstn (S j) rel) r = false).
    { destruct (path_eqb (r ++ firstn (S j) rel) r) eqn:E; [|reflexivity].
      apply path_eqb_eq in E.
      assert (Hlen := f_equal (@List.length string) E).
      rewrite length_app, length_firstn in Hlen. lia. }
    assert (Hd : dirname (r ++ firstn (S j) rel) = r ++ firstn j rel).
    { unfold dirname. rewrite removelast_app.
      - rewrite removelast_firstn by lia. reflexivity.
      - intros E. destruct rel as [|x rel']; [simpl in Hj; lia|discriminate E]. }
    destruct (nodes_get st (r ++ firstn (S j) rel)) as [l|] eqn:Hl.
    + cbn [rootPath modify_node with_heap]. rewrite Hr, Hne, Hd.
      rewrite (IH f (modify_node st l (propagate_update now))) by (simpl; auto; lia).
      unfold visited_heap. simpl heap. unfold heap_modify.
      change (with_heap (modify_node st l (propagate_update now)))
        with (with_heap st).
      f_equal. rewrite map_map. apply map_ext. intros [l' n].
      rewrite (seq_S (S j)), existsb_app. cbn [existsb Nat.add].
      change (is_node_at (modify_node st l (propagate_update now))) with (is_node_at st).
      assert (Hl' : is_node_at st (r ++ firstn (S j) rel) l' = (l' =? l))
        by (unfold is_node_at; rewrite Hl; reflexivity).
      rewrite Hl', orb_false_r, (Nat.eqb_sym l' l).
      destruct (Nat.eqb l l'); cbv beta iota.
      * rewrite orb_true_r.
        destruct (existsb _ _); [rewrite propagate_update_idem|]; reflexivity.
      * rewrite orb_false_r. reflexivity.
    + rewrite ?Hr, Hne, Hd.
      rewrite (IH f st) by (auto; lia).
      f_equal. unfold visited_heap. apply map_ext. intros [l' n].
      rewrite (seq_S (S j)), existsb_app. cbn [existsb Nat.add].
      assert (Hl' : is_node_at st (r ++ firstn (S j) rel) l' = false)
        by (unfold is_node_at; rewrite Hl; reflexivity).
      rewrite Hl', !orb_false_r. reflexivity.
Qed.

(** C7 (amended): [propagateToParents] on a path below the root visits
    exactly the ancestors [root ++ firstn i rel] for [i < |rel|], i.e. from
    the root down to the direct parent, and applies [propagate_update] to
    each indexed one.  At any [now > 100] (every [Date.now()] value),
    [propagate_update] sets the time to [now] exactly when the event time
    is absent or more than 100 ms old, and only in that case turns an
    absent or [childChange] kind into [childChange] (keeping any other
    kind); a parent with a recent event time is left unchanged, even when
    it has no kind.  (The source's falsy test [!parent.eventTime] also
    treats the time 0 as absent; that differs from the age test only when
    [now <= 100], the slip of [calculateHeat] in C3.) *)
Theorem propagateToParents_effect (st : TreeState) (rel : list string)
    (k : option event_kind) (now : Z) (Hrel : rel <> []) :
  propagateToParents st (rootPath st ++ rel) k now =
  with_heap st
    (map (fun '(l, n) =>
            (l, if existsb (fun i => is_node_at st (rootPath st ++ firstn i rel) l)
                           (seq 0 (List.length rel))
                then propagate_update now n else n)) (heap st)) /\
  ((100 < now)%Z ->
   forall n : node,
     ((eventTime n = None \/
       exists t, eventTime n = Some t /\ (now - t > 100)%Z) ->
      eventTime (propagate_update now n) = Some now /\
      ((eventType n = None \/ eventType n = Some ChildChange) ->
       eventType (propagate_update now n) = Some ChildChange) /\
      (forall k', eventType n = Some k' -> k' <> ChildChange ->
       eventType (propagate_update now n) = Some k')) /\
     ((exists t, eventTime n = Some t /\ (now - t <= 100)%Z) ->
      propagate_update now n = n)).
Proof.
  split.
  - unfold propagateToParents.
    assert (Hpos : (0 < List.length rel)%nat)
      by (destruct rel; [contradiction|simpl; lia]).
    assert (Hd : dirname (rootPath st ++ rel) =
                 rootPath st ++ firstn (pred (List.length rel)) rel).
    { unfold dirname. rewrite removelast_app by exact Hrel.
      rewrite removelast_firstn_len. reflexivity. }
    rewrite Hd.
    rewrite (propagate_loop_visits (rootPath st) rel now (pred (List.length rel))
               (S (List.length (rootPath st ++ rel))) st eq_refl)
      by (rewrite ?length_app; lia).
    unfold visited_heap. rewrite (Nat.succ_pred_pos _ Hpos). reflexivity.
  - intros Hnow n. unfold propagate_update.
    destruct n as [np nm ty et tm cs g gs h]; simpl. split.
    + intros Hst.
      assert (Hs : match tm with
                   | None => true
                   | Some t => (t =? 0)%Z || (100 <? now - t)%Z end = true).
      { destruct Hst as [-> | [t [-> Ht]]]; [reflexivity|].
        rewrite orb_true_iff. right. apply Z.ltb_lt. lia. }
      rewrite Hs. simpl. split; [reflexivity|]. split.
      * intros [-> | ->]; reflexivity.
      * intros k' -> _. destruct k'; reflexivity.
    + intros [t [-> Ht]].
      rewrite (proj2 (Z.eqb_neq t 0)) by lia.
      rewrite (proj2 (Z.ltb_ge 100 (now - t)) Ht). reflexivity.
Qed.

Lemma propagateToParents_effect_witness :
  ["a"%string] <> [] /\ (100 < 5000)%Z /\
  option_map eventType
    (node_at (propagateToParents (init ["r"%string] 0 0)
                (rootPath (init ["r"%string] 0 0) ++ ["a"%string]) (Some Add) 5000%Z)
             ["r"%string]) = Some (Some ChildChange) /\
  eventTime (propagate_update 5000%Z (createNode ["r"%string] Directory)) = Some 5000%Z.
Proof.
  split; [discriminate|]. split; [lia|].
  destruct (propagateToParents_effect (init ["r"%string] 0 0) ["a"%string]
              (Some Add) 5000%Z ltac:(discriminate)) as [E H].
  split.
  - rewrite E. vm_compute. reflexivity.
  - exact (proj1 (proj1 (H ltac:(lia) (createNode ["r"%string] Directory))
                   (or_introl eq_refl))).
Defined.
End TreeFacts.

Module OrchestratorFacts.
Import Tree Orchestrator.

(** C8: [TreeState] defines no [hasHotItems] method, so on every tree state
    the breath tick's first statement [treeState.hasHotItems()] throws a
    [TypeError]; the tick never reaches its render. *)
Theorem breatheTick_throws_missing_hasHotItems :
  ~ In "hasHotItems"%string TreeState_methods /\
  treeState_method "hasHotItems" = None /\
  forall st : TreeState, breatheTick st = Threw_TypeError.
Proof.
  split; [|split; [reflexivity|intros st; reflexivity]].
  simpl. intuition discriminate.
Qed.

End OrchestratorFacts.

Module LayoutFacts.
Import Heat Tree Layout.

Lemma sort_insert_perm {A} (cmp : A -> A -> comparison) (x : A) (l : list A) :
  Permutation (sort_insert cmp x l) (x :: l).
Proof.
  induction l as [|y ys IH]; simpl; [auto|].
  destruct (cmp y x); try apply Permutation_refl;
    (eapply perm_trans; [apply perm_skip, IH|apply perm_swap]).
Qed.

Lemma js_sort_perm {A} (cmp : A -> A -> comparison) (l : list A) :
  Permutation (js_sort cmp l) l.
Proof.
  unfold js_sort.
  assert (H : forall acc, Permutation (fold_left (fun acc x => sort_insert cmp x acc) l acc)
                                      (l ++ acc)).
  { induction l as [|x l IH]; intros acc; simpl; [auto|].
    eapply perm_trans; [apply IH|].
    eapply perm_trans; [apply Permutation_app_head, sort_insert_perm|].
    apply Permutation_sym, Permutation_middle. }
  rewrite <- (app_nil_r l) at 2. apply H.
Qed.

Section KeySort.
Context {A : Type} (f : A -> nat).
Let le_f (a b : A) : Prop := (f a <= f b)%nat.
Let cmp_f (a b : A) : comparison := Nat.compare (f a) (f b).

Lemma sort_insert_hd (z x : A) (l : list A) :
  le_f z x -> HdRel le_f z l -> HdRel le_f z (sort_insert cmp_f x l).
Proof.
  intros Hzx Hz. destruct l as [|y ys]; simpl; [constructor; exact Hzx|].
  unfold cmp_f. destruct (f y ?= f x); constructor; first [exact Hzx | inversion Hz; assumption].
Qed.

Lemma sort_insert_sorted (x : A) (l : list A) :
  Sorted le_f l -> Sorted le_f (sort_insert cmp_f x l).
Proof.
  induction l as [|y ys IH]; intros Hs; simpl; [repeat constructor|].
  inversion Hs as [|? ? Hys Hhd]; subst.
  unfold cmp_f at 1. destruct (Nat.compare (f y) (f x)) eqn:E.
  - apply Nat.compare_eq_iff in E.
    constructor; [apply IH, Hys|apply sort_insert_hd; [unfold le_f; lia|exact Hhd]].
  - apply Nat.compare_lt_iff in E.
    constructor; [apply IH, Hys|apply sort_insert_hd; [unfold le_f; lia|exact Hhd]].
  - apply Nat.compare_gt_iff in E.
    constructor; [exact Hs|constructor; unfold le_f; lia].
Qed.

Lemma js_sort_sorted (l : list A) : Sorted le_f (js_sort cmp_f l).
Proof.
  unfold js_sort.
  assert (H : forall acc, Sorted le_f acc ->
              Sorted le_f (fold_left (fun acc x => sort_insert cmp_f x acc) l acc)).
  { induction l as [|x l IH]; intros acc Hacc; simpl; [exact Hacc|].
    apply IH, sort_insert_sorted, Hacc. }
  apply H. constructor.
Qed.

Lemma sorted_nodup_strict (l : list A) :
  Sorted le_f l -> NoDup (map f l) -> StronglySorted lt (map f l).
Proof.
  intros Hs Hnd. apply Sorted_StronglySorted in Hs; [|intros a b c; unfold le_f; lia].
  induction Hs as [|a l Hs IH Hall]; simpl; constructor.
  - apply IH. inversion Hnd; assumption.
  - inversion Hnd as [|? ? Hni Hnd']; subst.
    apply Forall_forall. intros y Hy. apply in_map_iff in Hy as [b [<- Hb]].
    rewrite Forall_forall in Hall. specialize (Hall b Hb). unfold le_f in Hall.
    assert (f a <> f b) by (intros E; apply Hni; rewrite E; apply in_map, Hb).
    lia.
Qed.

End KeySort.

Lemma strongly_sorted_nodup (l : list nat) : StronglySorted lt l -> NoDup l.
Proof.
  induction 1 as [|a l _ IH Hall]; constructor; [|exact IH].
  intros Hin. rewrite Forall_forall in Hall. specialize (Hall a Hin). lia.
Qed.

Lemma nodup_firstn (k : nat) (l : list nat) : NoDup l -> NoDup (firstn k l).
Proof.
  intros H. rewrite <- (firstn_skipn k l) in H. apply NoDup_app_remove_r in H. exact H.
Qed.

Lemma seq_strongly_sorted (n s : nat) : StronglySorted lt (seq s n).
Proof.
  revert s. induction n as [|n IH]; intros s; simpl; constructor; [apply IH|].
  apply Forall_forall. intros y Hy. apply in_seq in Hy. lia.
Qed.

Lemma selectVisibleLines_spec (L : list line) (a : Z) (Ha : (0 <= a)%Z)
    (Hso : StronglySorted lt (map displayOrder L)) :
  (Z.of_nat (List.length (selectVisibleLines L a)) <= a)%Z /\
  StronglySorted lt (map displayOrder (selectVisibleLines L a)) /\
  ((Z.of_nat (List.length L) <= a)%Z -> selectVisibleLines L a = L) /\
  incl (selectVisibleLines L a) L.
Proof.
  unfold selectVisibleLines.
  destruct (Z.leb_spec (Z.of_nat (List.length L)) a) as [Hle|Hgt].
  - split; [exact Hle|]. split; [exact Hso|]. split; [reflexivity|apply incl_refl].
  - set (sorted := js_sort (fun a0 b => sign_sub (weight b) (weight a0)) L).
    set (selected := firstn (Z.to_nat a) sorted).
    assert (Hp1 : Permutation sorted L) by apply js_sort_perm.
    assert (Hp2 : Permutation
                    (js_sort (fun a0 b => Nat.compare (displayOrder a0) (displayOrder b)) selected)
                    selected) by apply js_sort_perm.
    assert (Hnd : NoDup (map displayOrder selected)).
    { unfold selected. rewrite <- firstn_map. apply nodup_firstn.
      apply (Permutation_NoDup (Permutation_map displayOrder (Permutation_sym Hp1))).
      apply strongly_sorted_nodup, Hso. }
    split; [|split; [|split]].
    + rewrite (Permutation_length Hp2). unfold selected. rewrite length_firstn. lia.
    + apply sorted_nodup_strict; [apply js_sort_sorted|].
      exact (Permutation_NoDup (Permutation_map displayOrder (Permutation_sym Hp2)) Hnd).
    + intros H. lia.
    + intros x Hx. apply (Permutation_in _ Hp2) in Hx. unfold selected in Hx.
      apply (Permutation_in _ Hp1). rewrite <- (firstn_skipn (Z.to_nat a) sorted).
      apply in_or_app. left. exact Hx.
Qed.

Lemma generateAllLines_orders (localeCompare : string -> string -> comparison)
    (isMatch : string -> string -> bool) (st : TreeState) (gs : option GitStatus)
    (filterPattern rootPath : string) :
  map displayOrder (generateAllLines localeCompare isMatch st gs filterPattern rootPath) =
  seq 0 (List.length (generateAllLines localeCompare isMatch st gs filterPattern rootPath)).
Proof.
  unfold generateAllLines.
  generalize (flattenTree localeCompare (fuel_of st) st gs (root st) 0 true []) as ns.
  intros ns. generalize 0%nat as s.
  induction ns as [|n ns IH]; intros s; simpl; [reflexivity|].
  f_equal. rewrite IH. rewrite !length_map, length_combine, length_seq, Nat.min_id.
  reflexivity.
Qed.


(** Every heat stored in the heap lies in [[0, MAX_HEAT]]. *)
Definition heats_ok (st : TreeState) : Prop :=
  forall l n h, heap_get (heap st) l = Some n -> heat n = Some h -> (0 <= h <= 100)%R.

Lemma heap_get_modify (h : list (loc * node)) (l l' : loc) (f : node -> node) :
  heap_get (heap_modify h l f) l' =
  if Nat.eqb l' l then option_map f (heap_get h l') else heap_get h l'.
Proof.
  unfold heap_get, heap_modify. induction h as [|[k n] r IH]; simpl.
  - destruct (Nat.eqb l' l); reflexivity.
  - destruct (Nat.eqb l k) eqn:Elk; simpl.
    + apply Nat.eqb_eq in Elk. subst k.
      destruct (Nat.eqb l' l); [reflexivity|exact IH].
    + destruct (Nat.eqb l' k) eqn:Ek.
      * apply Nat.eqb_eq in Ek. subst k. rewrite Nat.eqb_sym, Elk. reflexivity.
      * exact IH.
Qed.

Lemma heats_ok_set_heat (st : TreeState) (l : loc) (v : R) :
  heats_ok st -> (0 <= v <= 100)%R -> heats_ok (modify_node st l (set_heat v)).
Proof.
  intros Hok Hv l' n h Hg Hh. unfold modify_node in Hg. simpl in Hg.
  rewrite heap_get_modify in Hg.
  destruct (Nat.eqb l' l).
  - destruct (heap_get (heap st) l'); simpl in Hg; inversion Hg; subst.
    simpl in Hh. inversion Hh; subst. exact Hv.
  - exact (Hok l' n h Hg Hh).
Qed.

Lemma calculateDirHeat_range (cs : list R) (own : R) :
  Forall (fun x => 0 <= x <= 100)%R cs -> (0 <= own <= 100)%R ->
  (0 <= calculateDirHeat cs own <= 100)%R.
Proof.
  intros _ Hown. destruct cs as [|c cs]; simpl; [exact Hown|].
  unfold maxHeat. split.
  - apply Rmin_glb; [|lra]. eapply Rle_trans; [|apply Rmax_r]. lra.
  - apply Rmin_r.
Qed.

Lemma calculateNodeHeat_ok (fuel : nat) :
  forall st l now, heats_ok st ->
  heats_ok (fst (calculateNodeHeat fuel st l now)) /\
  (0 <= snd (calculateNodeHeat fuel st l now) <= 100)%R.
Proof.
  induction fuel as [|f IH]; intros st l now Hok; simpl; [split; [exact Hok|lra]|].
  destruct (heap_get (heap st) l) as [n|] eqn:Hn; [|simpl; split; [exact Hok|lra]].
  assert (Hown : (0 <= calculateHeat (eventType n) (eventTime n) now <= 100)%R).
  { split; [apply HeatFacts.calculateHeat_nonneg|apply HeatFacts.calculateHeat_le_max]. }
  assert (Hif : forall st1 hv,
            (if ntype_eqb (type n) Directory && negb (Nat.eqb (List.length (children n)) 0)
             then let '(st2, childHeats) :=
                    fold_left (fun '(st, hs) '(_, c) =>
                                 let '(st, v) := calculateNodeHeat f st c now in
                                 (st, hs ++ [v])) (children n) (st, []) in
                  (st2, calculateDirHeat childHeats
                          (calculateHeat (eventType n) (eventTime n) now))
             else (st, calculateHeat (eventType n) (eventTime n) now)) = (st1, hv) ->
            heats_ok st1 /\ (0 <= hv <= 100)%R).
  { intros st1 hv E.
    destruct (ntype_eqb (type n) Directory && negb (Nat.eqb (List.length (children n)) 0)).
    - assert (Hfold : forall cs acc, heats_ok (fst acc) ->
                Forall (fun x => 0 <= x <= 100)%R (snd acc) ->
                let r := fold_left (fun '((st, hs) : TreeState * list R)
                                        '((_, c) : string * loc) =>
                                      let '(st, v) := calculateNodeHeat f st c now in
                                      (st, hs ++ [v])) cs acc in
                heats_ok (fst r) /\ Forall (fun x => 0 <= x <= 100)%R (snd r)).
      { induction cs as [|[nm c] cs IHc]; intros [st' hs] H1 H2; simpl; [split; assumption|].
        destruct (calculateNodeHeat f st' c now) as [st'' v] eqn:Ec.
        destruct (IH st' c now H1) as [H3 H4]. rewrite Ec in H3, H4. simpl in H3, H4.
        apply IHc; simpl; [exact H3|]. apply Forall_app. split; [exact H2|constructor; [lra|constructor]]. }
      pose proof (Hfold (children n) (st, @nil R) Hok (Forall_nil _)) as HF. cbv zeta in HF.
      revert E HF.
      lazymatch goal with
      | |- context [fold_left ?F ?cs ?a] => destruct (fold_left F cs a) as [st2 hs]
      end.
      intros E [H1 H2]. simpl in H1, H2.
      inversion E; subst. split; [exact H1|apply calculateDirHeat_range; assumption].
    - inversion E; subst. split; assumption. }
  lazymatch goal with
  | |- context [if ntype_eqb (type n) Directory && ?b then ?x else ?y] =>
      destruct (if ntype_eqb (type n) Directory && b then x else y) as [st1 hv] eqn:E1
  end.
  destruct (Hif st1 hv eq_refl) as [Hok1 Hhv].
  assert (Hok2 := heats_ok_set_heat st1 l hv Hok1 Hhv).
  destruct (heap_get (heap_modify (heap st1) l (set_heat hv)) l) as [n'|]; simpl;
    [|split; assumption].
  destruct (isGhost n' && Nat.ltb (ghostFadeStep n') (ghostFadeSteps st1)); simpl;
    [|split; assumption].
  assert (Hb : (0 <= Rmax hv (90 - INR (ghostFadeStep n') * 25) <= 100)%R).
  { split; [eapply Rle_trans; [|apply Rmax_l]; lra|].
    apply Rmax_lub; [lra|]. assert (Hi := pos_INR (ghostFadeStep n')). lra. }
  split; [apply heats_ok_set_heat|]; assumption.
Qed.

Lemma calculateAllHeat_ok (st : TreeState) (now : Z) :
  heats_ok st -> heats_ok (calculateAllHeat st now).
Proof. intros H. apply (calculateNodeHeat_ok (fuel_of st) st (root st) now H). Qed.

Section GenSort.
Context {A : Type} (cmp : A -> A -> comparison) (rel : A -> A -> Prop).
Hypothesis Hgt : forall x y, cmp y x = Gt -> rel x y.
Hypothesis Hngt : forall x y, cmp y x <> Gt -> rel y x.

Lemma gsort_insert_hd (z x : A) (l : list A) :
  rel z x -> HdRel rel z l -> HdRel rel z (sort_insert cmp x l).
Proof.
  intros Hzx Hz. destruct l as [|y ys]; simpl; [constructor; exact Hzx|].
  destruct (cmp y x); constructor; first [exact Hzx | inversion Hz; assumption].
Qed.

Lemma gsort_insert_sorted (x : A) (l : list A) :
  Sorted rel l -> Sorted rel (sort_insert cmp x l).
Proof.
  induction l as [|y ys IH]; intros Hs; simpl; [repeat constructor|].
  inversion Hs as [|? ? Hys Hhd]; subst.
  destruct (cmp y x) eqn:E.
  - constructor; [apply IH, Hys|apply gsort_insert_hd; [apply Hngt; rewrite E; discriminate|exact Hhd]].
  - constructor; [apply IH, Hys|apply gsort_insert_hd; [apply Hngt; rewrite E; discriminate|exact Hhd]].
  - constructor; [exact Hs|constructor; apply Hgt, E].
Qed.

Lemma gjs_sort_sorted (l : list A) : Sorted rel (js_sort cmp l).
Proof.
  unfold js_sort.
  assert (H : forall acc, Sorted rel acc ->
              Sorted rel (fold_left (fun acc x => sort_insert cmp x acc) l acc)).
  { induction l as [|x l IH]; intros acc Hacc; simpl; [exact Hacc|].
    apply IH, gsort_insert_sorted, Hacc. }
  apply H. constructor.
Qed.

End GenSort.

Lemma strongly_sorted_split {A} (rel : A -> A -> Prop) (pre post : list A) (x : A) :
  StronglySorted rel (pre ++ x :: post) ->
  Forall (fun y => rel y x) pre /\ Forall (rel x) post.
Proof.
  induction pre as [|p pre IH]; simpl; intros H; inversion H as [|? ? Hs Hall]; subst.
  - split; [constructor|exact Hall].
  - destruct (IH Hs) as [H1 H2]. split; [|exact H2].
    constructor; [|exact H1].
    rewrite Forall_forall in Hall. apply Hall, in_or_app. right. left. reflexivity.
Qed.

Lemma filter_length_perm {A} (P : A -> bool) (l l' : list A) :
  Permutation l l' -> List.length (filter P l) = List.length (filter P l').
Proof.
  induction 1; simpl.
  - reflexivity.
  - destruct (P x); simpl; lia.
  - destruct (P x), (P y); simpl; lia.
  - lia.
Qed.

Lemma filter_all {A} (P : A -> bool) (l : list A) :
  Forall (fun y => P y = true) l -> filter P l = l.
Proof. induction 1 as [|y l Hy _ IH]; simpl; [reflexivity|]. rewrite Hy, IH. reflexivity. Qed.

Lemma filter_none {A} (P : A -> bool) (l : list A) :
  Forall (fun y => P y = false) l -> filter P l = [].
Proof. induction 1 as [|y l Hy _ IH]; simpl; [reflexivity|]. rewrite Hy, IH. reflexivity. Qed.

(** The descending weight sort of [selectVisibleLines]. *)
Definition weight_sort (L : list line) : list line :=
  js_sort (fun a b => sign_sub (weight b) (weight a)) L.

Lemma weight_sort_sorted (L : list line) :
  StronglySorted (fun a b => (weight b <= weight a)%R) (weight_sort L).
Proof.
  apply Sorted_StronglySorted; [intros a b c; lra|].
  apply gjs_sort_sorted.
  - intros x y. unfold sign_sub.
    destruct (Rlt_dec (weight x) (weight y)); [discriminate|].
    destruct (Rlt_dec (weight y) (weight x)); [intros _; lra|discriminate].
  - intros x y. unfold sign_sub.
    destruct (Rlt_dec (weight x) (weight y)); [intros _; lra|].
    destruct (Rlt_dec (weight y) (weight x)); [intros []; reflexivity|intros _; lra].
Qed.

(** Lines of a class [P] that outweighs every other line are all kept
    when the class fits the budget. *)
Lemma heavy_selected (L : list line) (a : Z) (P : line -> bool)
    (Hsep : forall x y, In x L -> In y L -> P x = true -> P y = false ->
            (weight y < weight x)%R)
    (Hcount : (List.length (filter P L) <= Z.to_nat a)%nat) :
  forall x, In x L -> P x = true -> In x (selectVisibleLines L a).
Proof.
  intros x Hx HPx. unfold selectVisibleLines.
  destruct (Z.leb (Z.of_nat (List.length L)) a); [exact Hx|].
  apply (Permutation_in _ (Permutation_sym (js_sort_perm _ _))).
  fold (weight_sort L).
  assert (Hp := js_sort_perm (fun a b => sign_sub (weight b) (weight a)) L).
  fold (weight_sort L) in Hp.
  assert (HxS : In x (weight_sort L)) by (apply (Permutation_in _ (Permutation_sym Hp)), Hx).
  apply in_split in HxS as [pre [post HS]].
  assert (Hss := weight_sort_sorted L). rewrite HS in Hss.
  destruct (strongly_sorted_split _ _ _ _ Hss) as [Hpre _].
  assert (HPpre : Forall (fun y => P y = true) pre).
  { rewrite Forall_forall in Hpre |- *. intros y Hy. specialize (Hpre y Hy). simpl in Hpre.
    destruct (P y) eqn:E; [reflexivity|].
    assert (HyL : In y L).
    { apply (Permutation_in _ Hp). rewrite HS. apply in_or_app. left. exact Hy. }
    specialize (Hsep x y Hx HyL HPx E). lra. }
  assert (Hlen : List.length (filter P (weight_sort L)) = List.length (filter P L))
    by (apply filter_length_perm, Hp).
  rewrite HS, filter_app, length_app, filter_all in Hlen by exact HPpre.
  simpl in Hlen. rewrite HPx in Hlen. simpl in Hlen.
  rewrite HS.
  replace (Z.to_nat a) with (List.length pre + (Z.to_nat a - List.length pre))%nat by lia.
  rewrite firstn_app_2. apply in_or_app. right.
  destruct (Z.to_nat a - List.length pre)%nat eqn:E; [lia|]. left. reflexivity.
Qed.

(** A line outweighed by at least [a] lines of a class [P] is dropped
    when the candidates exceed the budget [a]. *)
Lemma outweighed_dropped (L : list line) (a : Z) (P : line -> bool) (r : line)
    (Hheavy : forall y, In y L -> P y = true -> (weight r < weight y)%R)
    (Hcount : (Z.to_nat a <= List.length (filter P L))%nat)
    (Hlong : (a < Z.of_nat (List.length L))%Z) :
  ~ In r (selectVisibleLines L a).
Proof.
  unfold selectVisibleLines.
  destruct (Z.leb_spec (Z.of_nat (List.length L)) a) as [Hle|_]; [lia|].
  fold (weight_sort L).
  assert (Hp := js_sort_perm (fun a b => sign_sub (weight b) (weight a)) L).
  fold (weight_sort L) in Hp.
  intros Hr. apply (Permutation_in _ (js_sort_perm _ _)) in Hr.
  apply in_split in Hr as [pre [post Hf]].
  assert (HS : weight_sort L = pre ++ r :: (post ++ skipn (Z.to_nat a) (weight_sort L))).
  { rewrite <- (firstn_skipn (Z.to_nat a) (weight_sort L)) at 1. rewrite Hf.
    rewrite <- app_assoc. reflexivity. }
  assert (Hss := weight_sort_sorted L). rewrite HS in Hss.
  destruct (strongly_sorted_split _ _ _ _ Hss) as [_ Hpost].
  assert (Hin : forall y, In y (weight_sort L) -> In y L)
    by (intros y Hy; apply (Permutation_in _ Hp), Hy).
  assert (HPpost : Forall (fun y => P y = false) (r :: post ++ skipn (Z.to_nat a) (weight_sort L))).
  { constructor.
    - destruct (P r) eqn:E; [|reflexivity].
      assert (HrL : In r L) by (apply Hin; rewrite HS; apply in_or_app; right; left; reflexivity).
      specialize (Hheavy r HrL E). lra.
    - rewrite Forall_forall in Hpost |- *. intros y Hy. specialize (Hpost y Hy). simpl in Hpost.
      destruct (P y) eqn:E; [|reflexivity].
      assert (HyL : In y L) by (apply Hin; rewrite HS; apply in_or_app; right; right; exact Hy).
      specialize (Hheavy y HyL E). lra. }
  assert (Hlen : List.length (filter P (weight_sort L)) = List.length (filter P L))
    by (apply filter_length_perm, Hp).
  rewrite HS, filter_app, (filter_none _ _ HPpost), app_nil_r in Hlen.
  assert (Hpre : (List.length (filter P pre) <= List.length pre)%nat) by apply filter_length_le.
  assert (Hfl := f_equal (@List.length line) Hf).
  rewrite length_firstn, length_app in Hfl. simpl in Hfl.
  lia.
Qed.

Lemma flattenTree_heat (localeCompare : string -> string -> comparison)
    (st : TreeState) (gs : option GitStatus) (Hok : heats_ok st) :
  forall fuel l d last pc,
  Forall (fun ln => (0 <= lheat ln <= 100)%R)
         (flattenTree localeCompare fuel st gs l d last pc).
Proof.
  induction fuel as [|f IH]; intros l d last pc; simpl; [constructor|].
  destruct (heap_get (heap st) l) as [tn|] eqn:Htn; [|constructor].
  assert (H0 : (0 <= lheat (createLayoutNode tn d last pc) <= 100)%R).
  { unfold createLayoutNode; simpl. destruct (heat tn) as [h|] eqn:Eh; [|lra].
    exact (Hok l tn h Htn Eh). }
  destruct (_ && _).
  - constructor; [exact H0|].
    apply Forall_forall. intros y Hy. apply in_concat in Hy as [ys [Hys Hy]].
    apply in_map_iff in Hys as [[i c] [<- _]].
    exact (proj1 (Forall_forall _ _) (IH _ _ _ _) y Hy).
  - constructor; [exact H0|constructor].
Qed.

Lemma generateAllLines_in (localeCompare : string -> string -> comparison)
    (isMatch : string -> string -> bool) (st : TreeState) (gs : option GitStatus)
    (filterPattern rootPath : string) (y : line) :
  In y (generateAllLines localeCompare isMatch st gs filterPattern rootPath) ->
  In (lnode_of y) (flattenTree localeCompare (fuel_of st) st gs (root st) 0 true []) /\
  weight y = calculateLineWeight isMatch (lnode_of y) st gs filterPattern rootPath /\
  filterMatch y = matchesFilter isMatch (lnode_of y) filterPattern rootPath.
Proof.
  unfold generateAllLines. intros Hy. apply in_map_iff in Hy as [[i n] [<- Hin]].
  simpl. split; [|split; reflexivity]. apply in_combine_r in Hin. exact Hin.
Qed.

Lemma WEIGHT_git_range (c : Git.git_class) : (500 <= WEIGHT_git c <= 800)%R.
Proof. destruct c; simpl; lra. Qed.

Lemma WEIGHT_event_range (k : event_kind) : (0 <= WEIGHT_event k <= 150)%R.
Proof. destruct k; simpl; lra. Qed.

Lemma calculateLineWeight_root (isMatch : string -> string -> bool) (ln : lnode)
    (st : TreeState) (gs : option GitStatus) (filterPattern rootPath : string) :
  depth ln = 0%nat ->
  calculateLineWeight isMatch ln st gs filterPattern rootPath = 10000%R.
Proof. intros H. unfold calculateLineWeight. rewrite H. reflexivity. Qed.

Lemma matchesFilter_empty (isMatch : string -> string -> bool) (ln : lnode) (rootPath : string) :
  matchesFilter isMatch ln "" rootPath = None.
Proof. reflexivity. Qed.

(** A non-root line's weight is its unfiltered weight plus [9000] exactly
    when it matches the filter. *)
Lemma calculateLineWeight_filter_bonus (isMatch : string -> string -> bool) (ln : lnode)
    (st : TreeState) (gs : option GitStatus) (filterPattern rootPath : string) :
  depth ln <> 0%nat ->
  calculateLineWeight isMatch ln st gs filterPattern rootPath =
  (calculateLineWeight isMatch ln st gs "" rootPath +
   match matchesFilter isMatch ln filterPattern rootPath with
   | Some _ => 9000 | None => 0 end)%R.
Proof.
  intros H. unfold calculateLineWeight.
  rewrite (proj2 (Nat.eqb_neq _ _) H), matchesFilter_empty.
  destruct (matchesFilter isMatch ln filterPattern rootPath);
    unfold WEIGHT_filter_match; lra.
Qed.

(** The unfiltered weight of a non-root line is its heat plus [50 .. 1750]. *)
Lemma calculateLineWeight_unfiltered_range (isMatch : string -> string -> bool) (ln : lnode)
    (st : TreeState) (gs : option GitStatus) (rootPath : string) :
  depth ln <> 0%nat ->
  (50 + lheat ln <= calculateLineWeight isMatch ln st gs "" rootPath <= 1750 + lheat ln)%R.
Proof.
  intros H. unfold calculateLineWeight.
  rewrite (proj2 (Nat.eqb_neq _ _) H), matchesFilter_empty.
  destruct (ltype ln);
  destruct (getStatus_opt gs _ _) as [gi|];
  try (pose proof (WEIGHT_git_range (Git.status gi)));
  destruct (isHot (lheat ln));
  destruct (leventType ln) as [k|];
  try (pose proof (WEIGHT_event_range k));
  destruct (_ && _); destruct (isInHistory _ _); destruct (lisGhost ln);
  unfold WEIGHT_type_file, WEIGHT_type_dir, WEIGHT_heat_hot,
    WEIGHT_context_hasChangedChildren, WEIGHT_context_inHistory,
    WEIGHT_context_ghost in *; lra.
Qed.

Lemma heats_ok_no_heat (st : TreeState) :
  forallb (fun '(_, n) => match heat n with None => true | Some _ => false end) (heap st) = true ->
  heats_ok st.
Proof.
  intros H l n h Hg Hh.
  assert (Hin : exists k, In (k, n) (heap st)).
  { clear H Hh. revert Hg. unfold heap_get. generalize (heap st) as hp.
    induction hp as [|[k m] r IH]; simpl; [discriminate|].
    destruct (Nat.eqb l k).
    - intros E. inversion E; subst. exists k. left. reflexivity.
    - intros E. destruct (IH E) as [k' Hk]. exists k'. right. exact Hk. }
  destruct Hin as [k Hk]. rewrite forallb_forall in H. specialize (H _ Hk).
  simpl in H. rewrite Hh in H. discriminate.
Qed.

(** A non-root, filter-matching directory with a conflict, an [addDir]
    event and a place in the history. *)
Definition deep_heavy (isMatch : string -> string -> bool) (st : TreeState)
    (gs : option GitStatus) (filterPattern rootPath : string) (ln : lnode) : bool :=
  negb (Nat.eqb (depth ln) 0) && ntype_eqb (ltype ln) Directory &&
  match getStatus_opt gs (path_string (lpath ln)) (ltype ln) with
  | Some gi => match Git.status gi with Git.Conflict => true | _ => false end
  | None => false
  end &&
  match leventType ln with Some AddDir => true | _ => false end &&
  isInHistory st (lpath ln) &&
  match matchesFilter isMatch ln filterPattern rootPath with Some _ => true | None => false end.

Lemma deep_heavy_outweighs_root (isMatch : string -> string -> bool) (st : TreeState)
    (gs : option GitStatus) (filterPattern rootPath : string) (ln : lnode) :
  deep_heavy isMatch st gs filterPattern rootPath ln = true -> (0 <= lheat ln)%R ->
  (10000 < calculateLineWeight isMatch ln st gs filterPattern rootPath)%R.
Proof.
  intros H Hh. unfold deep_heavy in H.
  apply andb_prop in H as [H Hm]. apply andb_prop in H as [H Hhist].
  apply andb_prop in H as [H Hev]. apply andb_prop in H as [H Hgit].
  apply andb_prop in H as [Hd Hty].
  apply negb_true_iff in Hd.
  unfold calculateLineWeight. rewrite Hd, Hhist.
  destruct (ltype ln) eqn:Et; [discriminate Hty|].
  destruct (getStatus_opt gs (path_string (lpath ln)) Directory) as [gi|];
    [|discriminate Hgit].
  destruct (Git.status gi); try discriminate Hgit.
  destruct (leventType ln) as [[]|]; try discriminate Hev.
  destruct (matchesFilter isMatch ln filterPattern rootPath); [|discriminate Hm].
  cbv zeta. simpl WEIGHT_git. simpl WEIGHT_event.
  destruct (isHot (lheat ln)), (_ && _), (lisGhost ln);
    unfold WEIGHT_type_dir, WEIGHT_heat_hot, WEIGHT_context_hasChangedChildren,
      WEIGHT_context_inHistory, WEIGHT_context_ghost, WEIGHT_filter_match; lra.
Qed.

Definition conflict_info : Git.git_info :=
  {| Git.symbol := Git.GConflict; Git.color := Git.GConflict; Git.status := Git.Conflict |}.

(** A repository with one conflicted file [/r/x1/x2/x3/x4/x5/f]; as
    [aggregateDirStatus] does, every directory above it reads [conflict]. *)
Definition deep_conflict_gs : GitStatus :=
  {| isGitRepo := true;
     fileStatus := [("/r/x1/x2/x3/x4/x5/f", conflict_info)]%string;
     dirStatus := [("/r/x1/x2/x3/x4/x5", conflict_info); ("/r/x1/x2/x3/x4", conflict_info);
                   ("/r/x1/x2/x3", conflict_info); ("/r/x1/x2", conflict_info);
                   ("/r/x1", conflict_info); ("/r", conflict_info)]%string |}.

(** The directories [x1 .. x5] and the file [f] created at time [1000] under
    root [/r], with a history limit of 10. *)
Definition deep_chain_state : TreeState :=
  let st := init ["r"%string] 10 0 in
  let st := setNode st ["r"; "x1"]%string Directory (Some AddDir) 1000 in
  let st := setNode st ["r"; "x1"; "x2"]%string Directory (Some AddDir) 1000 in
  let st := setNode st ["r"; "x1"; "x2"; "x3"]%string Directory (Some AddDir) 1000 in
  let st := setNode st ["r"; "x1"; "x2"; "x3"; "x4"]%string Directory (Some AddDir) 1000 in
  let st := setNode st ["r"; "x1"; "x2"; "x3"; "x4"; "x5"]%string Directory (Some AddDir) 1000 in
  setNode st ["r"; "x1"; "x2"; "x3"; "x4"; "x5"; "f"]%string File (Some Change) 1000.

(** C2 (the code does not meet it): five filter-matching directories, each
    with a conflict, an [addDir] event and a history entry, weigh more
    than the root's [10000]. With filter ["x"] on [deep_chain_state] and a
    terminal of 8 rows (5 available rows), [generateLayout] has the root
    among its 7 candidate lines but returns no line of depth 0. *)
Theorem generateLayout_root_dropped (localeCompare : string -> string -> comparison)
    (isMatch : string -> string -> bool) :
  let '(st', res) := generateLayout localeCompare isMatch deep_chain_state 8
                       (Some deep_conflict_gs) "x" 1000 in
  availableRows res = 5%Z /\
  (exists r, In r (generateAllLines localeCompare isMatch st' (Some deep_conflict_gs) "x"
                     (layoutRootPath res)) /\ depth (lnode_of r) = 0%nat) /\
  Forall (fun y => depth (lnode_of y) <> 0%nat) (lines res).
Proof.
  unfold generateLayout. cbv beta iota zeta.
  cbn [lines availableRows layoutRootPath].
  change (match heap_get (heap deep_chain_state) (root deep_chain_state) with
          | Some rn => path_string (npath rn) | None => ""%string end) with "/r"%string.
  change (calculateAvailableRows 8) with 5%Z.
  split; [reflexivity|].
  set (st' := calculateAllHeat deep_chain_state 1000).
  set (gs := Some deep_conflict_gs).
  set (L := generateAllLines localeCompare isMatch st' gs "x" "/r").
  assert (HF1 : map (fun y => depth (lnode_of y)) L = [0; 1; 2; 3; 4; 5; 6]%nat)
    by (unfold L, st', gs; vm_compute; reflexivity).
  assert (HF2 : List.length
                  (filter (fun y => deep_heavy isMatch st' gs "x" "/r" (lnode_of y)) L) = 5%nat)
    by (unfold L, st', gs; vm_compute; reflexivity).
  assert (Hok : heats_ok st').
  { apply calculateAllHeat_ok, heats_ok_no_heat. vm_compute. reflexivity. }
  assert (Hw : forall y, In y L ->
            weight y = calculateLineWeight isMatch (lnode_of y) st' gs "x" "/r" /\
            (0 <= lheat (lnode_of y))%R).
  { intros y Hy. destruct (generateAllLines_in _ _ _ _ _ _ y Hy) as [Hfl [Hwy _]].
    split; [exact Hwy|].
    assert (Hb := proj1 (Forall_forall _ _) (flattenTree_heat localeCompare st' gs Hok _ _ _ _ _)
                    _ Hfl).
    simpl in Hb. lra. }
  assert (Hso : StronglySorted lt (map displayOrder L))
    by (unfold L; rewrite generateAllLines_orders; apply seq_strongly_sorted).
  clearbody L.
  destruct L as [|r T]; [discriminate HF1|].
  simpl in HF1. injection HF1 as Hr0 HT.
  split; [exists r; split; [left; reflexivity|exact Hr0]|].
  assert (Hdrop : ~ In r (selectVisibleLines (r :: T) 5)).
  { apply (outweighed_dropped _ _ (fun y => deep_heavy isMatch st' gs "x" "/r" (lnode_of y)));
      [|rewrite HF2; simpl; lia|simpl; rewrite <- (length_map (fun y => depth (lnode_of y)) T), HT; simpl; lia].
    intros y Hy Hh.
    destruct (Hw r (or_introl eq_refl)) as [Hwr _].
    destruct (Hw y Hy) as [Hwy Hhy].
    rewrite Hwr, Hwy, (calculateLineWeight_root _ _ _ _ _ _ Hr0).
    apply deep_heavy_outweighs_root; assumption. }
  destruct (selectVisibleLines_spec (r :: T) 5 ltac:(lia) Hso) as [_ [_ [_ Hincl]]].
  apply Forall_forall. intros y Hy.
  destruct (Hincl y Hy) as [<- | HyT]; [contradiction|].
  assert (Hd : In (depth (lnode_of y)) [1; 2; 3; 4; 5; 6]%nat)
    by (rewrite <- HT; apply (in_map (fun y => depth (lnode_of y))), HyT).
  simpl in Hd. lia.
Qed.

(** The root line or a line matching the filter. *)
Definition heavy_line (y : line) : bool :=
  Nat.eqb (depth (lnode_of y)) 0 || match filterMatch y with Some _ => true | None => false end.

(** C6 (counterexample): the root [/r] matches the filter ["r"], yet its
    line weighs exactly what it weighs with no filter: the root gets no
    [9000] bonus (no glob is involved, so [isMatch] is never called). *)
Lemma filter_bonus_root_counterexample :
  let '(st', res) := generateLayout (fun _ _ => Eq) (fun _ _ => false)
                       (init ["r"%string] 0 0) 24 None "r" 0 in
  exists y, In y (lines res) /\ filterMatch y = Some Text /\
    weight y = calculateLineWeight (fun _ _ => false) (lnode_of y) st' None ""
                 (layoutRootPath res).
Proof.
  set (localeCompare := fun _ _ : string => Eq).
  set (isMatch := fun _ _ : string => false).
  unfold generateLayout. cbv beta iota zeta.
  cbn [lines availableRows layoutRootPath].
  change (match heap_get (heap (init ["r"%string] 0 0)) (root (init ["r"%string] 0 0)) with
          | Some rn => path_string (npath rn) | None => ""%string end) with "/r"%string.
  set (st' := calculateAllHeat (init ["r"%string] 0 0) 0).
  set (L := generateAllLines localeCompare isMatch st' None "r" "/r").
  assert (HF : map (fun y => (depth (lnode_of y), filterMatch y)) L = [(0%nat, Some Text)])
    by (unfold L, st'; vm_compute; reflexivity).
  assert (Hw : forall y, In y L ->
            weight y = calculateLineWeight isMatch (lnode_of y) st' None "r" "/r")
    by (intros y Hy; apply (generateAllLines_in _ _ _ _ _ _ y Hy)).
  assert (Hso : StronglySorted lt (map displayOrder L))
    by (unfold L; rewrite generateAllLines_orders; apply seq_strongly_sorted).
  clearbody L.
  destruct L as [|y [|y' T]]; try discriminate HF.
  injection HF as Hd Hm.
  destruct (selectVisibleLines_spec [y] (calculateAvailableRows 24) ltac:(vm_compute; discriminate)
              Hso) as [_ [_ [Hfit _]]].
  exists y. rewrite Hfit by (vm_compute; discriminate).
  split; [left; reflexivity|]. split; [exact Hm|].
  rewrite (Hw y (or_introl eq_refl)), !(calculateLineWeight_root _ _ _ _ _ _ Hd).
  reflexivity.
Qed.

(** C6 (amended): provided the stored heats lie in [[0, 100]] (as every
    state built by the [TreeState] methods and [calculateAllHeat] keeps
    them), each non-root candidate line weighs its unfiltered weight plus
    [9000] exactly when it matches the filter, the root weighs [10000]
    whether it matches or not, the root and the matching lines outweigh all
    other lines, and when the root and the matching lines together fit the
    available rows, every matching line appears in the layout. *)
Theorem generateLayout_filter_dominance (localeCompare : string -> string -> comparison)
    (isMatch : string -> string -> bool) (st : TreeState) (rows : Z)
    (gs : option GitStatus) (filterPattern : string) (now : Z) (Hok : heats_ok st) :
  let r := generateLayout localeCompare isMatch st rows gs filterPattern now in
  let cands := generateAllLines localeCompare isMatch (fst r) gs filterPattern
                 (layoutRootPath (snd r)) in
  (forall y, In y cands -> depth (lnode_of y) <> 0%nat ->
     weight y = (calculateLineWeight isMatch (lnode_of y) (fst r) gs ""
                   (layoutRootPath (snd r)) +
                 match filterMatch y with Some _ => 9000 | None => 0 end)%R) /\
  (forall y, In y cands -> depth (lnode_of y) = 0%nat -> weight y = 10000%R) /\
  (forall x y, In x cands -> In y cands -> heavy_line x = true -> heavy_line y = false ->
     (weight y < weight x)%R) /\
  ((List.length (filter heavy_line cands) <= Z.to_nat (availableRows (snd r)))%nat ->
   forall y, In y cands -> filterMatch y <> None -> In y (lines (snd r))).
Proof.
  unfold generateLayout. cbv beta zeta. cbn [fst snd lines availableRows layoutRootPath].
  set (rp := match heap_get (heap st) (root st) with
             | Some rn => path_string (npath rn) | None => ""%string end).
  set (st' := calculateAllHeat st now).
  set (L := generateAllLines localeCompare isMatch st' gs filterPattern rp).
  assert (Hok' : heats_ok st') by apply calculateAllHeat_ok, Hok.
  assert (Hw : forall y, In y L ->
            weight y = calculateLineWeight isMatch (lnode_of y) st' gs filterPattern rp /\
            filterMatch y = matchesFilter isMatch (lnode_of y) filterPattern rp /\
            (0 <= lheat (lnode_of y) <= 100)%R).
  { intros y Hy. destruct (generateAllLines_in _ _ _ _ _ _ y Hy) as [Hfl [Hwy Hfy]].
    split; [exact Hwy|]. split; [exact Hfy|].
    exact (proj1 (Forall_forall _ _) (flattenTree_heat localeCompare st' gs Hok' _ _ _ _ _)
             _ Hfl). }
  assert (P1 : forall y, In y L -> depth (lnode_of y) <> 0%nat ->
            weight y = (calculateLineWeight isMatch (lnode_of y) st' gs "" rp +
                        match filterMatch y with Some _ => 9000 | None => 0 end)%R).
  { intros y Hy Hd. destruct (Hw y Hy) as [-> [-> _]].
    apply calculateLineWeight_filter_bonus, Hd. }
  assert (P2 : forall y, In y L -> depth (lnode_of y) = 0%nat -> weight y = 10000%R).
  { intros y Hy Hd. destruct (Hw y Hy) as [-> _]. apply calculateLineWeight_root, Hd. }
  assert (P3 : forall x y, In x L -> In y L -> heavy_line x = true -> heavy_line y = false ->
            (weight y < weight x)%R).
  { intros x y Hx Hy Hhx Hhy. unfold heavy_line in Hhx, Hhy.
    apply orb_false_iff in Hhy as [Hdy Hmy]. apply Nat.eqb_neq in Hdy.
    destruct (Hw y Hy) as [_ [_ Hby]].
    destruct (calculateLineWeight_unfiltered_range isMatch (lnode_of y) st' gs rp Hdy) as [_ Huy].
    rewrite (P1 y Hy Hdy). destruct (filterMatch y); [discriminate Hmy|].
    destruct (Nat.eqb_spec (depth (lnode_of x)) 0) as [Hdx|Hdx].
    - rewrite (P2 x Hx Hdx). lra.
    - simpl in Hhx. destruct (Hw x Hx) as [_ [_ Hbx]].
      destruct (calculateLineWeight_unfiltered_range isMatch (lnode_of x) st' gs rp Hdx)
        as [Hlx _].
      rewrite (P1 x Hx Hdx). destruct (filterMatch x); [|discriminate Hhx]. lra. }
  split; [exact P1|]. split; [exact P2|]. split; [exact P3|].
  intros Hc y Hy Hm.
  apply (heavy_selected L _ heavy_line P3 Hc y Hy).
  unfold heavy_line. destruct (filterMatch y); [apply orb_true_r|contradiction].
Qed.

(** A chain /r/x1/x2/x3/x4/x5/hit: seven candidate lines for five rows under
    the filter "hit", which only the deepest file matches. *)
Definition filter_demo_state : TreeState :=
  setNode (init ["r"%string] 0 0) ["r"; "x1"; "x2"; "x3"; "x4"; "x5"; "hit"]%string File
    (Some Add) 1000%Z.

Lemma generateLayout_filter_dominance_witness :
  heats_ok filter_demo_state /\
  let r := generateLayout (fun _ _ => Eq) (fun _ _ => false) filter_demo_state 8 None "hit" 1000 in
  let cands := generateAllLines (fun _ _ => Eq) (fun _ _ => false) (fst r) None "hit"
                 (layoutRootPath (snd r)) in
  (List.length (lines (snd r)) < List.length cands)%nat /\
  exists y z, In y (lines (snd r)) /\ depth (lnode_of y) <> 0%nat /\ filterMatch y = Some Text /\
    weight y = (calculateLineWeight (fun _ _ => false) (lnode_of y) (fst r) None ""
                  (layoutRootPath (snd r)) + 9000)%R /\
    In z cands /\ filterMatch z = None /\ (weight z < weight y)%R.
Proof.
  assert (Hok : heats_ok filter_demo_state)
    by (apply heats_ok_no_heat; vm_compute; reflexivity).
  split; [exact Hok|]. intros r cands.
  destruct (generateLayout_filter_dominance (fun _ _ => Eq) (fun _ _ => false)
              filter_demo_state 8 None "hit" 1000 Hok) as [P1 [_ [P3 P4]]].
  fold r cands in P1, P3, P4.
  assert (Ha : availableRows (snd r) = 5%Z).
  { unfold r, generateLayout. cbv beta iota zeta. cbn [snd availableRows]. reflexivity. }
  assert (Hrp : layoutRootPath (snd r) = "/r"%string).
  { unfold r, generateLayout. cbv beta iota zeta. cbn [snd layoutRootPath].
    vm_compute. reflexivity. }
  assert (Hst : fst r = calculateAllHeat filter_demo_state 1000) by reflexivity.
  assert (Hlines : lines (snd r) = selectVisibleLines cands 5).
  { unfold cands. rewrite Hrp, Hst. unfold r, generateLayout. cbv beta iota zeta.
    cbn [snd lines]. reflexivity. }
  assert (HF : map (fun x => (depth (lnode_of x), filterMatch x)) cands =
               [(0, None); (1, None); (2, None); (3, None); (4, None); (5, None);
                (6, Some Text)]%nat)
    by (unfold cands; rewrite Hrp, Hst; vm_compute; reflexivity).
  assert (Hso : StronglySorted lt (map displayOrder cands))
    by (unfold cands; rewrite generateAllLines_orders; apply seq_strongly_sorted).
  assert (Hlen8 : List.length cands = 7%nat)
    by (rewrite <- (length_map (fun x => (depth (lnode_of x), filterMatch x))), HF; reflexivity).
  destruct (selectVisibleLines_spec cands 5 ltac:(lia) Hso) as [Hle _].
  split; [rewrite Hlines, Hlen8; lia|].
  assert (Hc : (List.length (filter heavy_line cands) <= Z.to_nat (availableRows (snd r)))%nat).
  { rewrite Ha.
    assert (Hh : map heavy_line cands = [true; false; false; false; false; false; true]).
    { replace (map heavy_line cands) with
        (map (fun p => Nat.eqb (fst p) 0 || match snd p with Some _ => true | None => false end)
           (map (fun x => (depth (lnode_of x), filterMatch x)) cands))
        by (rewrite map_map; reflexivity).
      rewrite HF. reflexivity. }
    clear -Hh. revert Hh.
    destruct cands as [|a0 [|a1 [|a2 [|a3 [|a4 [|a5 [|a6 [|a7 t]]]]]]]]; try discriminate.
    simpl. intros Hh. injection Hh as -> -> -> -> -> -> ->. simpl. lia. }
  clearbody cands. clear Hlines Hso Hle.
  destruct cands as [|a0 [|a1 [|a2 [|a3 [|a4 [|a5 [|y [|a7 t]]]]]]]]; try discriminate HF.
  simpl in HF. injection HF as D0 M0 D1 M1 _ _ _ _ _ _ _ _ Dy My.
  exists y, a1.
  assert (Hy : In y [a0; a1; a2; a3; a4; a5; y]) by (simpl; tauto).
  assert (Hz : In a1 [a0; a1; a2; a3; a4; a5; y]) by (simpl; tauto).
  split; [apply P4; [exact Hc|exact Hy|rewrite My; discriminate]|].
  split; [rewrite Dy; discriminate|]. split; [exact My|].
  split; [rewrite (P1 y Hy); [rewrite My; reflexivity|rewrite Dy; discriminate]|].
  split; [exact Hz|]. split; [exact M1|].
  apply P3; [exact Hy|exact Hz| |].
  - unfold heavy_line. rewrite My. apply orb_true_r.
  - unfold heavy_line. rewrite D1, M1. reflexivity.
Defined.
(** C1: for every tree state, terminal size, git status, filter and clock,
    the lines of [generateLayout] number at most [max(5, rows - 2 - 1)];
    their [displayOrder]s are strictly increasing; when the candidate lines
    ([generateAllLines] on the heat-updated state) fit that budget they are
    all returned; and [collapsed] holds iff fewer lines than candidates are
    returned ([totalRows] being the number of candidates). *)
Theorem generateLayout_fit (localeCompare : string -> string -> comparison)
    (isMatch : string -> string -> bool) (st : TreeState) (rows : Z)
    (gs : option GitStatus) (filterPattern : string) (now : Z) :
  let '(st', res) := generateLayout localeCompare isMatch st rows gs filterPattern now in
  let candidates :=
    generateAllLines localeCompare isMatch st' gs filterPattern (layoutRootPath res) in
  (Z.of_nat (List.length (lines res)) <= Z.max 5 (rows - 2 - 1))%Z /\
  StronglySorted lt (map displayOrder (lines res)) /\
  ((Z.of_nat (List.length candidates) <= Z.max 5 (rows - 2 - 1))%Z ->
   lines res = candidates) /\
  incl (lines res) candidates /\
  totalRows res = List.length candidates /\
  (collapsed res = true <-> (List.length (lines res) < List.length candidates)%nat).
Proof.
  unfold generateLayout. cbv beta iota zeta.
  cbn [lines totalRows collapsed layoutRootPath].
  set (rp := match heap_get (heap st) (root st) with
             | Some rn => path_string (npath rn) | None => ""%string end).
  set (L := generateAllLines localeCompare isMatch (calculateAllHeat st now) gs
              filterPattern rp).
  assert (Havail : calculateAvailableRows rows = Z.max 5 (rows - 2 - 1)).
  { unfold calculateAvailableRows, headerRows, footerRows, minRows. lia. }
  rewrite Havail.
  assert (Hso : StronglySorted lt (map displayOrder L)).
  { unfold L. rewrite generateAllLines_orders. apply seq_strongly_sorted. }
  destruct (selectVisibleLines_spec L (Z.max 5 (rows - 2 - 1)) ltac:(lia) Hso)
    as [H1 [H2 [H3 H4]]].
  split; [exact H1|]. split; [exact H2|]. split; [exact H3|]. split; [exact H4|].
  split; [reflexivity|]. apply Nat.ltb_lt.
Qed.
End LayoutFacts.

(* ------------------------------------------------------------------ *)
(** ** Heat display ([src/lib/heat.mjs]) *)

Module ViewFacts.
Import Heat HeatView.
Local Open Scope R_scope.

Lemma js_round_spec (x : R) : IZR (js_round x) - / 2 <= x < IZR (js_round x) + / 2.
Proof.
  unfold js_round. destruct (base_Int_part (x + / 2)) as [H1 H2]. lra.
Qed.

Lemma heatBar_cells (h : R) (Hlo : 0 <= h) (Hhi : h <= maxHeat) :
  exists m : nat, (m <= 6)%nat /\
    heatBar h = Some (repeat Full m ++ repeat Light (6 - m)) /\
    INR m - / 2 <= h / maxHeat * 6 < INR m + / 2.
Proof.
  unfold maxHeat in *.
  pose proof (js_round_spec (h / 100 * IZR barSegments)) as [H1 H2].
  set (k := js_round (h / 100 * IZR barSegments)) in *.
  unfold barSegments in *.
  assert (Hk0 : (0 <= k)%Z).
  { assert (-1 < IZR k) by (assert (0 <= h / 100 * 6) by (apply Rmult_le_pos; [unfold Rdiv; apply Rmult_le_pos; lra | lra]); lra).
    apply lt_IZR in H. lia. }
  assert (Hk6 : (k <= 6)%Z).
  { assert (IZR k < 7) by (assert (h / 100 * 6 <= 6) by (unfold Rdiv; nra); lra).
    apply lt_IZR in H. lia. }
  exists (Z.to_nat k). repeat split.
  - lia.
  - unfold heatBar, js_repeat, barSegments, maxHeat. fold k.
    destruct (Z.ltb_spec k 0); [lia|].
    destruct (Z.ltb_spec (6 - k) 0); [lia|].
    rewrite Z2Nat.inj_sub by lia. reflexivity.
  - rewrite INR_IZR_INZ, Z2Nat.id by lia. lra.
  - rewrite INR_IZR_INZ, Z2Nat.id by lia. lra.
Qed.

(** X2: for a heat in [[0, MAX_HEAT]], [heatBar] draws [m] full cells
    followed by [6 - m] light cells, where [m] is [heat / MAX_HEAT * 6]
    rounded to the nearest integer (at most [1/2] away). *)
Theorem heatBar_shape (h : R) (Hlo : 0 <= h) (Hhi : h <= maxHeat) :
  exists m : nat, (m <= 6)%nat /\
    heatBar h = Some (repeat Full m ++ repeat Light (6 - m)) /\
    INR m - / 2 <= h / maxHeat * 6 < INR m + / 2.
Proof. exact (heatBar_cells h Hlo Hhi). Qed.

(** X3: a heat at or above [325/3] or below [-25/3] makes one of the
    two [String.prototype.repeat] counts negative, so [heatBar] throws a
    [RangeError] (modelled as [None]). *)
Theorem heatBar_out_of_range_throws (h : R) (Hout : 325 / 3 <= h \/ h < - (25 / 3)) :
  heatBar h = None.
Proof.
  pose proof (js_round_spec (h / maxHeat * IZR barSegments)) as [H1 H2].
  unfold heatBar, js_repeat.
  set (k := js_round (h / maxHeat * IZR barSegments)) in *.
  unfold barSegments, maxHeat in *.
  destruct Hout as [Hh|Hh].
  - assert (Hk : (7 <= k)%Z).
    { assert (6 < IZR k) by (unfold Rdiv in *; nra). apply lt_IZR in H. lia. }
    destruct (Z.ltb_spec k 0); [reflexivity|].
    destruct (Z.ltb_spec (6 - k) 0); [reflexivity|lia].
  - assert (Hk : (k < 0)%Z).
    { assert (IZR k < 0) by (unfold Rdiv in *; nra). apply lt_IZR in H. lia. }
    destruct (Z.ltb_spec k 0); [reflexivity|lia].
Qed.

(** X5: [getHeatColor] is monotone in the heat (bright red > red >
    magenta > cyan > blue), and it is not blue exactly when [isHot]
    holds. *)
Theorem getHeatColor_monotone (h1 h2 : R) (Hle : h1 <= h2) :
  (color_rank (getHeatColor h1) <= color_rank (getHeatColor h2))%nat /\
  (getHeatColor h1 <> Blue <-> isHot h1 = true).
Proof.
  unfold getHeatColor, isHot, hotThreshold.
  repeat match goal with
         | |- context[Rle_dec ?a ?b] => destruct (Rle_dec a b)
         end; simpl; try (exfalso; lra);
  (split; [lia|]); split; intros; try congruence; try lra.
Qed.

(** X6: [formatTimeAgo] gives the empty string for a missing or zero
    time; otherwise it prints the elapsed time floored to whole seconds
    below one minute, to whole minutes below one hour, and to whole hours
    from one hour on. *)
Theorem formatTimeAgo_units (t now : Z) (Ht : t <> 0%Z) :
  formatTimeAgo None now = ""%string /\ formatTimeAgo (Some 0%Z) now = ""%string /\
  ((now - t < 60000)%Z ->
     formatTimeAgo (Some t) now = (number_to_string ((now - t) / 1000) ++ "s")%string) /\
  ((60000 <= now - t < 3600000)%Z ->
     formatTimeAgo (Some t) now = (number_to_string ((now - t) / 60000) ++ "m")%string) /\
  ((3600000 <= now - t)%Z ->
     formatTimeAgo (Some t) now = (number_to_string ((now - t) / 3600000) ++ "h")%string).
Proof.
  unfold formatTimeAgo.
  destruct (Z.eqb_spec t 0) as [|_]; [contradiction|].
  rewrite !Z.div_div by lia. simpl Z.mul.
  set (e := (now - t)%Z).
  pose proof (Z.div_mod e 1000 ltac:(lia)). pose proof (Z.mod_pos_bound e 1000 ltac:(lia)).
  pose proof (Z.div_mod e 60000 ltac:(lia)). pose proof (Z.mod_pos_bound e 60000 ltac:(lia)).
  repeat split; intros He.
  - destruct (Z.ltb_spec (e / 1000) 60); [reflexivity|lia].
  - destruct (Z.ltb_spec (e / 1000) 60); [lia|].
    destruct (Z.ltb_spec (e / 60000) 60); [reflexivity|lia].
  - destruct (Z.ltb_spec (e / 1000) 60); [lia|].
    destruct (Z.ltb_spec (e / 60000) 60); [lia|reflexivity].
Qed.

(** X1: for a nonzero event time, [calculateHeat] at the event time is
    the full event weight, and every 10 s later the heat is halved. *)
Theorem calculateHeat_fresh_then_halves (k : option event_kind) (t now : Z)
    (Ht : t <> 0%Z) (Hnow : (t <= now)%Z) :
  calculateHeat k (Some t) t = EVENT_WEIGHTS k /\
  calculateHeat k (Some t) (now + 10000) = calculateHeat k (Some t) now / 2.
Proof.
  assert (Hw : 0 < EVENT_WEIGHTS k <= 100) by (destruct k as [[]|]; simpl; lra).
  assert (Hun : forall n, (t <= n)%Z ->
            calculateHeat k (Some t) n = spec_heat_unclamped k t n /\
            spec_heat_unclamped k t n <= 100).
  { intros n Hn. rewrite HeatFacts.calculateHeat_spec by exact Ht.
    unfold spec_heat, spec_heat_unclamped, maxHeat.
    assert (Hp : Rpower 2 (- IZR (n - t) / halfLife) <= 1).
    { rewrite <- (Rpower_O 2) by lra. apply HeatFacts.Rpower2_le.
      assert (0 <= IZR (n - t)) by (apply IZR_le; lia).
      assert (0 < / 10000) by (apply Rinv_0_lt_compat; lra).
      unfold halfLife, Rdiv. nra. }
    pose proof (HeatFacts.Rpower2_pos (- IZR (n - t) / halfLife)).
    assert (EVENT_WEIGHTS k * Rpower 2 (- IZR (n - t) / halfLife) <= 100) by nra.
    split; [apply Rmin_left|]; assumption. }
  split.
  - destruct (Hun t (Z.le_refl t)) as [-> _]. unfold spec_heat_unclamped.
    rewrite Z.sub_diag. replace (- IZR 0 / halfLife) with 0 by (unfold halfLife; simpl; field).
    rewrite Rpower_O by lra. ring.
  - destruct (Hun now Hnow) as [-> _]. destruct (Hun (now + 10000)%Z ltac:(lia)) as [-> _].
    rewrite HeatFacts.spec_heat_unclamped_half_life. field.
Qed.

(** X4: after [calculateAllHeat], starting from heats in
    [[0, MAX_HEAT]], [heatBar] never throws on a node's heat: it draws
    six cells, or nothing when the node has no heat. *)
Theorem heatBar_after_calculateAllHeat (st : Tree.TreeState) (now : Z)
    (Hok : LayoutFacts.heats_ok st) (l : Tree.loc) (n : Tree.node)
    (Hn : Tree.heap_get (Tree.heap (Tree.calculateAllHeat st now)) l = Some n) :
  exists bar, heatBar_opt (Tree.heat n) = Some bar /\
    (List.length bar = 6%nat \/ (bar = [] /\ Tree.heat n = None)).
Proof.
  destruct (Tree.heat n) as [h|] eqn:Eh; simpl.
  - pose proof (LayoutFacts.calculateAllHeat_ok st now Hok l n h Hn Eh) as Hr.
    destruct (heatBar_cells h) as (m & Hm & Hb & _); unfold maxHeat; try lra.
    exists (repeat Full m ++ repeat Light (6 - m)). split; [exact Hb|left].
    rewrite length_app, !repeat_length. lia.
  - exists []. split; [reflexivity|right; auto].
Qed.

Lemma calculateHeat_fresh_then_halves_witness :
  (1000 <> 0)%Z /\ (1000 <= 1000)%Z /\
  calculateHeat (Some Change) (Some 1000%Z) 1000%Z = EVENT_WEIGHTS (Some Change) /\
  calculateHeat (Some Change) (Some 1000%Z) (1000 + 10000)%Z =
    calculateHeat (Some Change) (Some 1000%Z) 1000%Z / 2.
Proof.
  split; [lia|]. split; [lia|].
  apply calculateHeat_fresh_then_halves; lia.
Defined.

Lemma heatBar_shape_witness :
  0 <= 50 /\ 50 <= maxHeat /\
  exists m : nat, (m <= 6)%nat /\
    heatBar 50 = Some (repeat Full m ++ repeat Light (6 - m)) /\
    INR m - / 2 <= 50 / maxHeat * 6 < INR m + / 2.
Proof.
  split; [lra|]. split; [unfold maxHeat; lra|].
  apply heatBar_shape; [lra|unfold maxHeat; lra].
Defined.

Lemma heatBar_out_of_range_throws_witness :
  (325 / 3 <= 200 \/ 200 < - (25 / 3)) /\ heatBar 200 = None.
Proof.
  split; [left; lra|].
  apply heatBar_out_of_range_throws. left; lra.
Defined.

Lemma heatBar_after_calculateAllHeat_witness :
  LayoutFacts.heats_ok (Tree.init ["r"%string] 0 0) /\
  exists n, Tree.heap_get (Tree.heap (Tree.calculateAllHeat (Tree.init ["r"%string] 0 0) 0%Z))
              0%nat = Some n /\
  exists bar, heatBar_opt (Tree.heat n) = Some bar /\
    (List.length bar = 6%nat \/ (bar = [] /\ Tree.heat n = None)).
Proof.
  assert (Hok : LayoutFacts.heats_ok (Tree.init ["r"%string] 0 0))
    by (apply LayoutFacts.heats_ok_no_heat; vm_compute; reflexivity).
  split; [exact Hok|].
  destruct (Tree.heap_get (Tree.heap (Tree.calculateAllHeat (Tree.init ["r"%string] 0 0) 0%Z))
              0%nat) as [n|] eqn:E; [|vm_compute in E; discriminate E].
  exists n. split; [reflexivity|].
  exact (heatBar_after_calculateAllHeat _ 0%Z Hok 0%nat n E).
Defined.

Lemma getHeatColor_monotone_witness :
  10 <= 50 /\
  (color_rank (getHeatColor 10) <= color_rank (getHeatColor 50))%nat /\
  (getHeatColor 10 <> Blue <-> isHot 10 = true).
Proof.
  split; [lra|]. apply getHeatColor_monotone. lra.
Defined.

Lemma formatTimeAgo_units_witness :
  (1000 <> 0)%Z /\
  formatTimeAgo (Some 1000%Z) 5000%Z = (number_to_string ((5000 - 1000) / 1000) ++ "s")%string.
Proof.
  split; [lia|].
  destruct (formatTimeAgo_units 1000 5000 ltac:(lia)) as (_ & _ & H & _).
  apply H. lia.
Defined.
End ViewFacts.

(* ------------------------------------------------------------------ *)
(** ** Git status maps ([src/lib/file-watcher.mjs]) *)

Module GitAggFacts.
Import Git GitAgg.
Local Open Scope string_scope.

(** A blank porcelain column: space or ['?']. *)
Definition blank (c : option ascii) : bool := is_char c " " || is_char c "?".

Definition counts_sum (c : counts) : nat :=
  c_conflict c + c_unstaged c + c_staged c + c_untracked c.

Definition is_unstaged_or_both (e : string * git_info) : bool :=
  match status (snd e) with Unstaged | Both => true | _ => false end.

Lemma is_char_cases (c : option ascii) :
  c = Some "U"%char \/ c = Some "A"%char \/ c = Some "D"%char \/ c = Some "?"%char \/
  c = Some " "%char \/
  (is_char c "U" = false /\ is_char c "A" = false /\ is_char c "D" = false /\
   is_char c "?" = false /\ is_char c " " = false).
Proof.
  destruct c as [c|]; [|repeat right; repeat split].
  unfold is_char.
  destruct (Ascii.eqb_spec c "U"); [left; congruence|].
  destruct (Ascii.eqb_spec c "A"); [right; left; congruence|].
  destruct (Ascii.eqb_spec c "D"); [do 2 right; left; congruence|].
  destruct (Ascii.eqb_spec c "?"); [do 3 right; left; congruence|].
  destruct (Ascii.eqb_spec c " "); [do 4 right; left; congruence|].
  do 5 right. repeat split; reflexivity.
Qed.


(** X7: [parseStatus] classifies a porcelain status pair: a [U] in
    either column is a conflict; a staged result has a blank work-tree
    column and a non-blank index column; and the pair is ignored exactly
    when both columns are blank ([' '] or ['?']) but not both ['?']. *)
Theorem parseStatus_classification (i w : option ascii) :
  ((is_char i "U" || is_char w "U")%bool = true ->
     exists g, parseStatus i w = Some g /\ status g = Conflict) /\
  (forall g, parseStatus i w = Some g -> status g = Staged ->
     blank w = true /\ blank i = false) /\
  (parseStatus i w = None <->
     (blank i && blank w && negb (is_char i "?" && is_char w "?"))%bool = true).
Proof.
  unfold blank.
  destruct (is_char_cases i) as [->|[->|[->|[->|[->|(Hu & Ha & Hd & Hq & Hs)]]]]];
  destruct (is_char_cases w) as [->|[->|[->|[->|[->|(Hu' & Ha' & Hd' & Hq' & Hs')]]]]];
  unfold parseStatus; simpl;
  rewrite ?Hu, ?Ha, ?Hd, ?Hq, ?Hs, ?Hu', ?Ha', ?Hd', ?Hq', ?Hs'; simpl;
  (split; [intros H; try discriminate H; eexists; split; reflexivity|]);
  (split; [intros g Hg; first [discriminate Hg | injection Hg as <-]; simpl; intros Hc; try discriminate Hc; auto|]);
  split; intros H; try discriminate H; reflexivity.
Qed.

Lemma map_get_set (m : status_map) (k d : string) (v : git_info) :
  map_get (map_set m k v) d = if String.eqb d k then Some v else map_get m d.
Proof.
  induction m as [|[k' v'] m IH]; simpl.
  - destruct (String.eqb d k); reflexivity.
  - destruct (String.eqb_spec k k') as [<-|Hne]; simpl.
    + destruct (String.eqb d k); reflexivity.
    + rewrite IH. destruct (String.eqb_spec d k') as [->|]; [|reflexivity].
      destruct (String.eqb_spec k' k); [congruence|reflexivity].
Qed.

Lemma map_set_in (m : status_map) (k k' : string) (v v' : git_info) :
  In (k', v') (map_set m k v) -> (k', v') = (k, v) \/ In (k', v') m.
Proof.
  induction m as [|[a b] m IH]; simpl.
  - intros [H|[]]; auto.
  - destruct (String.eqb_spec k a) as [<-|_]; simpl; intros [H|H]; auto.
    destruct (IH H); auto.
Qed.

Lemma map_get_in (m : status_map) (d : string) (v : git_info) :
  map_get m d = Some v -> In (d, v) m.
Proof.
  induction m as [|[a b] m IH]; simpl; [discriminate|].
  destruct (String.eqb_spec d a) as [->|_]; [intros [= ->]; auto|auto].
Qed.

(** What one walk of [agg_walk] does to each key: it never lowers a
    priority and only writes the walked file's status. *)
Lemma agg_walk_mono (fuel : nat) (r : string) (s : git_info) (dir : string)
    (ds : status_map) (d : string) :
  match map_get ds d with
  | Some ex => exists ex', map_get (agg_walk fuel r s dir ds) d = Some ex' /\
                 statusPriority (status ex) <= statusPriority (status ex')
  | None => True
  end /\
  (forall v, map_get (agg_walk fuel r s dir ds) d = Some v ->
     map_get ds d = Some v \/ v = s).
Proof.
  revert dir ds. induction fuel as [|f IH]; intros dir ds; simpl.
  - split; [destruct (map_get ds d); [eexists; split; [reflexivity|lia]|exact I]|auto].
  - destruct (Nat.ltb_spec (String.length dir) (String.length r)).
    { split; [destruct (map_get ds d); [eexists; split; [reflexivity|lia]|exact I]|auto]. }
    set (ds1 := match map_get ds dir with
                | Some existing =>
                    if Nat.ltb (statusPriority (status existing)) (statusPriority (status s))
                    then map_set ds dir s else ds
                | None => map_set ds dir s
                end).
    assert (H1 : match map_get ds d with
                 | Some ex => exists ex', map_get ds1 d = Some ex' /\
                                statusPriority (status ex) <= statusPriority (status ex')
                 | None => True end /\
                 (forall v, map_get ds1 d = Some v -> map_get ds d = Some v \/ v = s)).
    { unfold ds1. destruct (map_get ds dir) as [ex0|] eqn:E0.
      - destruct (Nat.ltb_spec (statusPriority (status ex0)) (statusPriority (status s))).
        + rewrite map_get_set. destruct (String.eqb_spec d dir) as [->|].
          * rewrite E0. split; [eexists; split; [reflexivity|lia]|intros v [= <-]; auto].
          * split; [destruct (map_get ds d); [eexists; split; [reflexivity|lia]|exact I]|auto].
        + split; [destruct (map_get ds d); [eexists; split; [reflexivity|lia]|exact I]|auto].
      - rewrite map_get_set. destruct (String.eqb_spec d dir) as [->|].
        * rewrite E0. split; [exact I|intros v [= <-]; auto].
        * split; [destruct (map_get ds d); [eexists; split; [reflexivity|lia]|exact I]|auto]. }
    destruct (String.eqb dir r); [exact H1|].
    destruct (IH (dirname dir) ds1) as [IH1 IH2]. destruct H1 as [H1a H1b].
    split.
    + destruct (map_get ds d) as [ex|]; [|exact I].
      destruct H1a as (ex1 & E1 & P1). rewrite E1 in IH1.
      destruct IH1 as (ex2 & E2 & P2). exists ex2. split; [exact E2|lia].
    + intros v Hv. destruct (IH2 v Hv) as [Hv'|]; auto.
Qed.

Lemma aggregate_mono_origin (r : string) (fs ds : status_map) (d : string) :
  match map_get ds d with
  | Some ex => exists ex', map_get (aggregateDirStatus r fs ds) d = Some ex' /\
                 statusPriority (status ex) <= statusPriority (status ex')
  | None => True
  end /\
  (forall v, map_get (aggregateDirStatus r fs ds) d = Some v ->
     map_get ds d = Some v \/ exists f, In (f, v) fs).
Proof.
  unfold aggregateDirStatus. revert ds.
  induction fs as [|[f s] fs IH]; intros ds; simpl.
  - split; [destruct (map_get ds d); [eexists; split; [reflexivity|lia]|exact I]|auto].
  - set (ds1 := agg_walk (S (S (String.length (dirname f)))) r s (dirname f) ds).
    destruct (agg_walk_mono (S (S (String.length (dirname f)))) r s (dirname f) ds d)
      as [W1 W2]. fold ds1 in W1, W2.
    destruct (IH ds1) as [IH1 IH2]. split.
    + destruct (map_get ds d) as [ex|]; [|exact I].
      destruct W1 as (ex1 & E1 & P1). rewrite E1 in IH1.
      destruct IH1 as (ex2 & E2 & P2). exists ex2. split; [exact E2|lia].
    + intros v Hv. destruct (IH2 v Hv) as [Hv'|(f' & Hf')].
      * destruct (W2 v Hv') as [Hd|Hs]; [auto|subst v; right; exists f; auto].
      * right. exists f'. auto.
Qed.

Lemma agg_walk_first (fuel : nat) (r : string) (s : git_info) (dir : string)
    (ds : status_map) :
  String.length r <= String.length dir ->
  exists v, map_get (agg_walk (S fuel) r s dir ds) dir = Some v /\
    statusPriority (status s) <= statusPriority (status v).
Proof.
  intros Hl. simpl.
  destruct (Nat.ltb_spec (String.length dir) (String.length r)); [lia|].
  set (ds1 := match map_get ds dir with
              | Some existing =>
                  if Nat.ltb (statusPriority (status existing)) (statusPriority (status s))
                  then map_set ds dir s else ds
              | None => map_set ds dir s
              end).
  assert (H1 : exists v, map_get ds1 dir = Some v /\
                 statusPriority (status s) <= statusPriority (status v)).
  { unfold ds1. destruct (map_get ds dir) as [ex|] eqn:E.
    - destruct (Nat.ltb_spec (statusPriority (status ex)) (statusPriority (status s))).
      + rewrite map_get_set, String.eqb_refl. eexists; split; [reflexivity|lia].
      + exists ex. split; [exact E|lia].
    - rewrite map_get_set, String.eqb_refl. eexists; split; [reflexivity|lia]. }
  destruct (String.eqb dir r); [exact H1|].
  destruct H1 as (v1 & E1 & P1).
  destruct (agg_walk_mono fuel r s (dirname dir) ds1 dir) as [W _].
  rewrite E1 in W. destruct W as (v2 & E2 & P2). exists v2. split; [exact E2|lia].
Qed.

Lemma aggregate_parent (r : string) (fs ds : status_map) (f : string) (s : git_info) :
  In (f, s) fs -> String.length r <= String.length (dirname f) ->
  exists v, map_get (aggregateDirStatus r fs ds) (dirname f) = Some v /\
    statusPriority (status s) <= statusPriority (status v).
Proof.
  intros Hin Hl. apply in_split in Hin as (pre & post & ->).
  unfold aggregateDirStatus. rewrite fold_left_app. simpl.
  set (ds0 := fold_left _ pre ds).
  destruct (agg_walk_first (S (String.length (dirname f))) r s (dirname f) ds0 Hl)
    as (v1 & E1 & P1).
  set (ds1 := agg_walk _ r s (dirname f) ds0) in E1.
  destruct (aggregate_mono_origin r post ds1 (dirname f)) as [M _].
  unfold aggregateDirStatus in M. rewrite E1 in M.
  destruct M as (v2 & E2 & P2). exists v2. split; [exact E2|lia].
Qed.

(** X9: after [refresh] rebuilds both maps, every directory status is
    the status of some changed file, and the parent directory of each
    changed file inside the root holds a status of at least that file's
    priority; a conflict always propagates as a conflict. *)
Theorem refresh_dirStatus (rootPath stdout : string) :
  let '(fileStatus, dirStatus) := refresh_maps rootPath stdout in
  (forall d v, map_get dirStatus d = Some v -> exists f, In (f, v) fileStatus) /\
  (forall f s, In (f, s) fileStatus ->
     String.length rootPath <= String.length (dirname f) ->
     exists v, map_get dirStatus (dirname f) = Some v /\
       statusPriority (status s) <= statusPriority (status v) /\
       (status s = Conflict -> status v = Conflict)).
Proof.
  unfold refresh_maps. set (fs := fetchFileStatusInto rootPath stdout []). split.
  - intros d v Hv. destruct (aggregate_mono_origin rootPath fs [] d) as [_ H].
    destruct (H v Hv) as [Hc|Hf]; [discriminate Hc|exact Hf].
  - intros f s Hin Hl. destruct (aggregate_parent rootPath fs [] f s Hin Hl) as (v & E & P).
    exists v. repeat split; [exact E|exact P|].
    intros Hc. rewrite Hc in P. simpl in P.
    destruct (status v); simpl in P; try lia; reflexivity.
Qed.



(** X10: the four counts of [getCounts] add up to the number of changed
    files, [hasChanges] holds exactly when that sum is positive, and the
    unstaged count covers both unstaged and staged-and-modified files. *)
Theorem getCounts_total (fs : status_map) :
  counts_sum (getCounts fs) = List.length fs /\
  (hasChanges fs = true <-> 0 < counts_sum (getCounts fs)) /\
  c_unstaged (getCounts fs) = List.length (filter is_unstaged_or_both fs).
Proof.
  assert (H : forall c0, counts_sum (fold_left (fun c '(_, s) =>
      match status s with
      | Conflict => {| c_conflict := S (c_conflict c); c_unstaged := c_unstaged c;
                       c_staged := c_staged c; c_untracked := c_untracked c |}
      | Unstaged | Both =>
                    {| c_conflict := c_conflict c; c_unstaged := S (c_unstaged c);
                       c_staged := c_staged c; c_untracked := c_untracked c |}
      | Staged => {| c_conflict := c_conflict c; c_unstaged := c_unstaged c;
                     c_staged := S (c_staged c); c_untracked := c_untracked c |}
      | Untracked => {| c_conflict := c_conflict c; c_unstaged := c_unstaged c;
                        c_staged := c_staged c; c_untracked := S (c_untracked c) |}
      end) fs c0) = counts_sum c0 + List.length fs /\
      c_unstaged (fold_left (fun c '(_, s) =>
      match status s with
      | Conflict => {| c_conflict := S (c_conflict c); c_unstaged := c_unstaged c;
                       c_staged := c_staged c; c_untracked := c_untracked c |}
      | Unstaged | Both =>
                    {| c_conflict := c_conflict c; c_unstaged := S (c_unstaged c);
                       c_staged := c_staged c; c_untracked := c_untracked c |}
      | Staged => {| c_conflict := c_conflict c; c_unstaged := c_unstaged c;
                     c_staged := S (c_staged c); c_untracked := c_untracked c |}
      | Untracked => {| c_conflict := c_conflict c; c_unstaged := c_unstaged c;
                        c_staged := c_staged c; c_untracked := S (c_untracked c) |}
      end) fs c0) = c_unstaged c0 + List.length (filter is_unstaged_or_both fs)).
  { induction fs as [|[k s] fs IH]; intros c0; simpl; [lia|].
    unfold is_unstaged_or_both in *; simpl in *.
    destruct (status s); rewrite (proj1 (IH _)), (proj2 (IH _)); unfold counts_sum; simpl;
      split; lia. }
  destruct (H (mkCounts 0 0 0 0)) as [H1 H2]. fold (getCounts fs) in H1, H2.
  unfold counts_sum at 2 in H1. simpl in H1.
  split; [lia|]. split; [|simpl in H2; lia].
  unfold hasChanges. rewrite H1. destruct (Nat.ltb_spec 0 (List.length fs)); split;
    intros; try lia; congruence.
Qed.

(** The key [processLine] writes for a line: [rootPath/] followed by the
    path part of the line (after the two status columns and the space), or
    the new name of a rename [old -> new]. *)
Definition line_fullPath (rootPath line : string) : string :=
  let filePath := JsString.slice_from 3 line in
  let actualPath :=
    if JsString.includes filePath " -> "
    then match JsString.nth_opt (JsString.split filePath " -> ") 1 with
         | Some p => p
         | None => "undefined"
         end
    else filePath in
  rootPath ++ "/" ++ actualPath.

Lemma processLine_unfold (rootPath : string) (m : status_map) (line : string) :
  processLine rootPath m line =
  if String.eqb line "" then m else
  match parseStatus (JsString.char_at line 0) (JsString.char_at line 1) with
  | Some st => map_set m (line_fullPath rootPath line) st
  | None => m
  end.
Proof. reflexivity. Qed.

Lemma fold_processLine_origin (rootPath : string) (ls : list string) (m : status_map)
    (k : string) (v : git_info) :
  In (k, v) (fold_left (processLine rootPath) ls m) ->
  In (k, v) m \/
  exists ln, In ln ls /\ ln <> "" /\ k = line_fullPath rootPath ln /\
    parseStatus (JsString.char_at ln 0) (JsString.char_at ln 1) = Some v.
Proof.
  revert m. induction ls as [|ln ls IH]; intros m Hin; simpl in Hin; [left; exact Hin|].
  destruct (IH _ Hin) as [Hm|(l & Hl & Hne & Hk & Hp)];
    [|right; exists l; simpl; auto].
  rewrite processLine_unfold in Hm.
  destruct (String.eqb_spec ln "") as [_|Hne]; [left; exact Hm|].
  destruct (parseStatus _ _) as [g|] eqn:Eg; [|left; exact Hm].
  destruct (map_set_in _ _ _ _ _ Hm) as [[= -> ->]|Hm']; [|left; exact Hm'].
  right. exists ln. simpl. auto.
Qed.

Lemma fold_processLine_keeps (rootPath : string) (ls : list string) (m : status_map)
    (k : string) :
  map_get m k <> None -> map_get (fold_left (processLine rootPath) ls m) k <> None.
Proof.
  revert m. induction ls as [|ln ls IH]; intros m Hm; simpl; [exact Hm|].
  apply IH. rewrite processLine_unfold.
  destruct (String.eqb ln ""); [exact Hm|].
  destruct (parseStatus _ _) as [g|]; [|exact Hm].
  rewrite map_get_set. destruct (String.eqb k _); [discriminate|exact Hm].
Qed.

Lemma fold_processLine_untouched (rootPath : string) (ls : list string) (m : status_map)
    (k : string) :
  (forall ln, In ln ls -> ln <> "" ->
     parseStatus (JsString.char_at ln 0) (JsString.char_at ln 1) <> None ->
     line_fullPath rootPath ln <> k) ->
  map_get (fold_left (processLine rootPath) ls m) k = map_get m k.
Proof.
  revert m. induction ls as [|ln ls IH]; intros m Hls; simpl; [reflexivity|].
  rewrite IH by (intros l Hl; apply Hls; right; exact Hl).
  rewrite processLine_unfold.
  destruct (String.eqb_spec ln "") as [_|Hne]; [reflexivity|].
  destruct (parseStatus _ _) as [g|] eqn:Eg; [|reflexivity].
  rewrite map_get_set. destruct (String.eqb_spec k (line_fullPath rootPath ln)) as [Hk|];
    [|reflexivity].
  exfalso. apply (Hls ln (or_introl eq_refl) Hne); [rewrite Eg; discriminate|symmetry; exact Hk].
Qed.

(** X8: [fetchFileStatusInto] on [git status --porcelain] output, split
    into lines [ls]: every recorded entry comes from a non-empty line of
    [ls], keyed by [line_fullPath rootPath line] and valued by [parseStatus]
    of the line's first two characters; every non-empty line that
    [parseStatus] accepts leaves its key in the map; and a line's status is
    the one recorded when no later accepted line has the same key. *)
Theorem fetchFileStatusInto_keys (rootPath stdout : string) :
  let ls := JsString.split stdout newline in
  let m := fetchFileStatusInto rootPath stdout [] in
  Forall (fun '(k, v) => exists ln, In ln ls /\ ln <> "" /\
            k = line_fullPath rootPath ln /\
            parseStatus (JsString.char_at ln 0) (JsString.char_at ln 1) = Some v) m /\
  (forall ln g, In ln ls -> ln <> "" ->
     parseStatus (JsString.char_at ln 0) (JsString.char_at ln 1) = Some g ->
     map_get m (line_fullPath rootPath ln) <> None) /\
  (forall (pre : list string) (ln : string) (post : list string) (g : git_info), ls = (pre ++ ln :: post)%list -> ln <> "" ->
     parseStatus (JsString.char_at ln 0) (JsString.char_at ln 1) = Some g ->
     (forall ln', In ln' post -> ln' <> "" ->
        parseStatus (JsString.char_at ln' 0) (JsString.char_at ln' 1) <> None ->
        line_fullPath rootPath ln' <> line_fullPath rootPath ln) ->
     map_get m (line_fullPath rootPath ln) = Some g).
Proof.
  intros ls m. unfold m, fetchFileStatusInto. fold ls.
  assert (Hlast : forall (pre : list string) (ln : string) (post : list string) (g : git_info), ls = (pre ++ ln :: post)%list -> ln <> "" ->
     parseStatus (JsString.char_at ln 0) (JsString.char_at ln 1) = Some g ->
     map_get (fold_left (processLine rootPath) (ln :: post)
                (fold_left (processLine rootPath) pre [])) (line_fullPath rootPath ln) <> None /\
     ((forall ln', In ln' post -> ln' <> "" ->
        parseStatus (JsString.char_at ln' 0) (JsString.char_at ln' 1) <> None ->
        line_fullPath rootPath ln' <> line_fullPath rootPath ln) ->
      map_get (fold_left (processLine rootPath) (ln :: post)
                (fold_left (processLine rootPath) pre [])) (line_fullPath rootPath ln) = Some g)).
  { intros pre ln post g _ Hne Hp. simpl.
    assert (Hset : map_get (processLine rootPath (fold_left (processLine rootPath) pre []) ln)
                     (line_fullPath rootPath ln) = Some g).
    { rewrite processLine_unfold, Hp.
      destruct (String.eqb_spec ln "") as [|_]; [contradiction|].
      rewrite map_get_set, String.eqb_refl. reflexivity. }
    split.
    - apply fold_processLine_keeps. rewrite Hset. discriminate.
    - intros Hpost. rewrite fold_processLine_untouched by exact Hpost. exact Hset. }
  split; [|split].
  - apply Forall_forall. intros [k v] Hin.
    destruct (fold_processLine_origin rootPath ls [] k v Hin) as [[]|H]. exact H.
  - intros ln g Hin Hne Hp.
    destruct (in_split ln ls Hin) as (pre & post & Hls).
    rewrite Hls, fold_left_app.
    exact (proj1 (Hlast pre ln post g Hls Hne Hp)).
  - intros pre ln post g Hls Hne Hp Hpost.
    rewrite Hls, fold_left_app.
    exact (proj2 (Hlast pre ln post g Hls Hne Hp) Hpost).
Qed.
End GitAggFacts.

(* ------------------------------------------------------------------ *)
(** ** Tree state invariants ([src/lib/tree-state.mjs]) *)

Module TreeInvFacts.
Import Heat Tree.

(** [loc_path] only reads the heap, where every write keeps [npath]. *)
Definition heap_ext (st st' : TreeState) : Prop :=
  forall x p, loc_path st x = Some p -> loc_path st' x = Some p.

(** Steps that only add heap cells, write through [modify_node] and
    index allocated cells. *)
Definition frame (st st' : TreeState) : Prop :=
  heap_ext st st' /\ history st' = history st /\ historyLimit st' = historyLimit st /\
  (forall q l, In (q, l) (nodes st') -> In (q, l) (nodes st) \/ loc_path st' l <> None).

(** Well-formed tree state: the index and the history point to
    allocated nodes, no path is twice in the history, and the history is
    within its limit. *)
Definition tree_wf (st : TreeState) : Prop :=
  (forall q l, In (q, l) (nodes st) -> loc_path st l <> None) /\
  Forall (fun x => loc_path st x <> None) (history st) /\
  NoDup (map (loc_path st) (history st)) /\
  (List.length (history st) <= historyLimit st)%nat.

Section JsMapFacts.
Context {K V : Type} (eqb : K -> K -> bool).

Lemma jsmap_get_in (m : list (K * V)) (k : K) (v : V) :
  JsMap.get eqb m k = Some v -> exists k', In (k', v) m.
Proof.
  induction m as [|[a b] m IH]; simpl; [discriminate|].
  destruct (eqb k a); [intros [= ->]; eauto|intros H; destruct (IH H); eauto].
Qed.

Lemma jsmap_set_in (m : list (K * V)) (k q : K) (v w : V) :
  In (q, w) (JsMap.set eqb m k v) -> In (q, w) m \/ w = v.
Proof.
  induction m as [|[a b] m IH]; simpl.
  - intros [[= _ ->]|[]]; auto.
  - destruct (eqb k a); simpl; intros [H|H].
    + injection H as -> ->. auto.
    + auto.
    + auto.
    + destruct (IH H); auto.
Qed.

Lemma jsmap_delete_in (m : list (K * V)) (k q : K) (w : V) :
  In (q, w) (JsMap.delete eqb m k) -> In (q, w) m.
Proof.
  induction m as [|[a b] m IH]; simpl; [auto|].
  destruct (eqb k a); simpl; intros; [auto|]. destruct H; auto.
Qed.

End JsMapFacts.

Lemma frame_refl (st : TreeState) : frame st st.
Proof. split; [intros x p H; exact H|]. split; [reflexivity|]. split; [reflexivity|]. intros; left; assumption. Qed.

Lemma frame_trans (s1 s2 s3 : TreeState) : frame s1 s2 -> frame s2 s3 -> frame s1 s3.
Proof.
  intros (E1 & H1 & L1 & N1) (E2 & H2 & L2 & N2). repeat split.
  - intros x p Hx. apply E2, E1, Hx.
  - congruence.
  - congruence.
  - intros q l Hin. destruct (N2 q l Hin) as [Hin2|Hl]; [|auto].
    destruct (N1 q l Hin2) as [|Hl1]; [auto|right].
    destruct (loc_path s2 l) as [p|] eqn:Ep; [|contradiction].
    rewrite (E2 _ _ Ep). discriminate.
Qed.

Lemma frame_wf (st st' : TreeState) : tree_wf st -> frame st st' -> tree_wf st'.
Proof.
  intros (Wn & Wh & Wd & Wl) (E & Hh & Hl & N).
  assert (Hmap : map (loc_path st') (history st) = map (loc_path st) (history st)).
  { apply map_ext_in. intros x Hx. rewrite Forall_forall in Wh. specialize (Wh x Hx).
    destruct (loc_path st x) as [p|] eqn:Ep; [exact (E _ _ Ep)|contradiction]. }
  unfold tree_wf. rewrite Hh, Hl. repeat split.
  - intros q l Hin. destruct (N q l Hin) as [Hin'|]; [|auto].
    specialize (Wn q l Hin'). destruct (loc_path st l) as [p|] eqn:Ep; [|contradiction].
    rewrite (E _ _ Ep). discriminate.
  - rewrite Forall_forall in *. intros x Hx. specialize (Wh x Hx).
    destruct (loc_path st x) as [p|] eqn:Ep; [|contradiction].
    rewrite (E _ _ Ep). discriminate.
  - rewrite Hmap. exact Wd.
  - exact Wl.
Qed.

Lemma loc_path_modify (st : TreeState) (l x : loc) (f : node -> node) :
  (forall n, npath (f n) = npath n) -> loc_path (modify_node st l f) x = loc_path st x.
Proof.
  intros Hf. unfold loc_path, modify_node. simpl.
  rewrite LayoutFacts.heap_get_modify.
  destruct (Nat.eqb x l); [|reflexivity].
  destruct (heap_get (heap st) x); simpl; [rewrite Hf|]; reflexivity.
Qed.

Lemma frame_modify (st : TreeState) (l : loc) (f : node -> node) :
  (forall n, npath (f n) = npath n) -> frame st (modify_node st l f).
Proof.
  intros Hf. repeat split.
  - intros x p Hx. rewrite loc_path_modify by exact Hf. exact Hx.
  - intros q l' Hin. left. exact Hin.
Qed.

Lemma heap_get_app (h : list (loc * node)) (l x : loc) (n : node) :
  heap_get (h ++ [(l, n)]) x =
  match heap_get h x with Some v => Some v | None => if Nat.eqb x l then Some n else None end.
Proof.
  unfold heap_get. induction h as [|[a b] h IH]; simpl; [reflexivity|].
  destruct (Nat.eqb x a); [reflexivity|exact IH].
Qed.

Lemma alloc_frame (st : TreeState) (n : node) :
  frame st (fst (alloc st n)) /\ loc_path (fst (alloc st n)) (snd (alloc st n)) <> None.
Proof.
  split; [repeat split|].
  - intros x p Hx. unfold loc_path in *. simpl. rewrite heap_get_app.
    destruct (heap_get (heap st) x); [exact Hx|discriminate].
  - intros q l Hin. left. exact Hin.
  - unfold loc_path. simpl. rewrite heap_get_app, Nat.eqb_refl.
    destruct (heap_get (heap st) (next_loc st)); discriminate.
Qed.

Lemma frame_with_nodes_set (st : TreeState) (k : path) (l : loc) :
  loc_path st l <> None -> frame st (with_nodes st (JsMap.set path_eqb (nodes st) k l)).
Proof.
  intros Hl. repeat split.
  - intros x p Hx. exact Hx.
  - intros q l' Hin. simpl in Hin. destruct (jsmap_set_in _ _ _ _ _ _ Hin) as [Hx | ->]; auto.
Qed.

Lemma frame_with_ghosts (st : TreeState) gs : frame st (with_ghosts st gs).
Proof. split; [intros x p H; exact H|]. split; [reflexivity|]. split; [reflexivity|]. intros; left; assumption. Qed.

Lemma npath_propagate_update (now : Z) (n : node) : npath (propagate_update now n) = npath n.
Proof.
  unfold propagate_update.
  match goal with |- context[if ?b then _ else _] => destruct b end; reflexivity.
Qed.

Lemma propagate_loop_frame (fuel : nat) (st : TreeState) (p : path) (now : Z) :
  frame st (propagate_loop fuel st p now) /\ ghosts (propagate_loop fuel st p now) = ghosts st /\
  nodes (propagate_loop fuel st p now) = nodes st.
Proof.
  revert st p. induction fuel as [|f IH]; intros st p; simpl; [split; [apply frame_refl|auto]|].
  destruct (Nat.ltb _ _); [split; [apply frame_refl|auto]|].
  set (st1 := match nodes_get st p with
              | Some l => modify_node st l (propagate_update now)
              | None => st end).
  assert (F1 : frame st st1 /\ ghosts st1 = ghosts st /\ nodes st1 = nodes st /\
               rootPath st1 = rootPath st).
  { unfold st1. destruct (nodes_get st p); [|split; [apply frame_refl|auto]].
    split; [apply frame_modify, npath_propagate_update|auto]. }
  destruct F1 as (F1 & G1 & N1 & R1).
  destruct (path_eqb p (rootPath st1)); [auto|].
  destruct (IH st1 (dirname p)) as (F2 & G2 & N2).
  split; [exact (frame_trans _ _ _ F1 F2)|]. split; congruence.
Qed.

Lemma propagateToParents_frame (st : TreeState) (p : path) et (now : Z) :
  frame st (propagateToParents st p et now) /\ ghosts (propagateToParents st p et now) = ghosts st /\
  nodes (propagateToParents st p et now) = nodes st.
Proof. apply propagate_loop_frame. Qed.

Lemma markChildrenAsGhosts_frame (fuel : nat) (st : TreeState) (l : loc) :
  frame st (markChildrenAsGhosts fuel st l) /\ ghosts (markChildrenAsGhosts fuel st l) = ghosts st /\
  nodes (markChildrenAsGhosts fuel st l) = nodes st.
Proof.
  revert st l. induction fuel as [|f IH]; intros st l; simpl; [split; [apply frame_refl|auto]|].
  assert (H : forall (xs : list (string * loc)) st0 st',
    frame st0 st' /\ ghosts st' = ghosts st0 /\ nodes st' = nodes st0 ->
    let r := fold_left (fun st '((_, c) : string * loc) =>
          let st := modify_node st c (set_ghost true 0) in
          match heap_get (heap st) c with
          | Some cn => if ntype_eqb (type cn) Directory
                       then markChildrenAsGhosts f st c else st
          | None => st
          end) xs st' in
    frame st0 r /\ ghosts r = ghosts st0 /\ nodes r = nodes st0).
  { induction xs as [|[nm c] xs IHx]; intros st0 st' (F & G & N); simpl; [auto|].
    apply IHx.
    assert (F1 : frame st' (modify_node st' c (set_ghost true 0))) by (apply frame_modify; reflexivity).
    destruct (heap_get _ c) as [cn|]; [destruct (ntype_eqb _ _)|].
    - destruct (IH (modify_node st' c (set_ghost true 0)) c) as (F2 & G2 & N2).
      split; [exact (frame_trans _ _ _ F (frame_trans _ _ _ F1 F2))|].
      rewrite G2, N2. simpl. auto.
    - split; [exact (frame_trans _ _ _ F F1)|]. simpl. auto.
    - split; [exact (frame_trans _ _ _ F F1)|]. simpl. auto. }
  apply H. split; [apply frame_refl|auto].
Qed.

Lemma ensure_loop_frame (segs : list string) (st : TreeState) (cur : loc) (cp : path) :
  tree_wf st ->
  frame st (fst (ensure_loop st cur cp segs)) /\ ghosts (fst (ensure_loop st cur cp segs)) = ghosts st.
Proof.
  revert st cur cp. induction segs as [|sg segs IH]; intros st cur cp Hwf; cbn [ensure_loop];
    [split; [apply frame_refl|auto]|].
  lazymatch goal with
  | |- context[JsMap.get String.eqb (loc_children ?S cur) sg] => set (st1 := S)
  end.
  assert (F1 : frame st st1 /\ ghosts st1 = ghosts st).
  { unfold st1. destruct (JsMap.has _ _ _); [split; [apply frame_refl|auto]|].
    destruct (alloc_frame st (createNode (cp ++ [sg]) Directory)) as [Fa La].
    assert (Ga : ghosts (fst (alloc st (createNode (cp ++ [sg]) Directory))) = ghosts st)
      by reflexivity.
    destruct (alloc st (createNode (cp ++ [sg]) Directory)) as [s1 l1]. simpl in Fa, La, Ga.
    assert (Fm : frame s1 (modify_node s1 cur (fun n =>
                   set_children (JsMap.set String.eqb (children n) sg l1) n)))
      by (apply frame_modify; reflexivity).
    split; [|exact Ga].
    eapply frame_trans; [exact Fa|]. eapply frame_trans; [exact Fm|].
    apply frame_with_nodes_set. rewrite loc_path_modify by reflexivity. exact La. }
  destruct F1 as [F1 G1].
  destruct (JsMap.get String.eqb (loc_children st1 cur) sg) as [c|]; [|auto].
  destruct (IH st1 c (cp ++ [sg]) (frame_wf _ _ Hwf F1)) as [F2 G2].
  split; [exact (frame_trans _ _ _ F1 F2)|congruence].
Qed.

Lemma ensureParents_frame (st : TreeState) (p : path) :
  tree_wf st -> frame st (fst (ensureParents st p)) /\ ghosts (fst (ensureParents st p)) = ghosts st.
Proof.
  intros Hwf. unfold ensureParents.
  destruct (getPathSegments st p); [split; [apply frame_refl|auto]|].
  apply ensure_loop_frame, Hwf.
Qed.

Lemma nodup_map_filter {A B} (f : A -> B) (g : A -> bool) (l : list A) :
  NoDup (map f l) -> NoDup (map f (filter g l)).
Proof.
  induction l as [|x l IH]; simpl; [auto|]. intros H. inversion H as [|? ? Hn Hd]; subst.
  destruct (g x); simpl; [|auto]. constructor; [|auto].
  intros Hin. apply Hn. apply in_map_iff in Hin as (y & <- & Hy).
  apply filter_In in Hy as [Hy _]. apply in_map, Hy.
Qed.

Lemma nodup_map_firstn {A B} (f : A -> B) (k : nat) (l : list A) :
  NoDup (map f l) -> NoDup (map f (firstn k l)).
Proof.
  intros H. rewrite <- (firstn_skipn k l), map_app in H. apply NoDup_app_remove_r in H. exact H.
Qed.

Lemma filter_wf (st : TreeState) (g : loc -> bool) :
  tree_wf st -> tree_wf (with_history st (filter g (history st))).
Proof.
  intros (Wn & Wh & Wd & Wl). repeat split; simpl.
  - exact Wn.
  - apply Forall_forall. intros x Hx. apply filter_In in Hx as [Hx _].
    exact (proj1 (Forall_forall _ _) Wh x Hx).
  - apply nodup_map_filter, Wd.
  - pose proof (filter_length_le g (history st)) as H. lia.
Qed.

Lemma loc_path_with_history (st : TreeState) hs : loc_path (with_history st hs) = loc_path st.
Proof. reflexivity. Qed.

Lemma addToHistory_wf (st : TreeState) (l : loc) :
  tree_wf st -> loc_path st l <> None -> tree_wf (addToHistory st l).
Proof.
  intros (Wn & Wh & Wd & Wl) Hl. unfold addToHistory.
  destruct (loc_path st l) as [pl|] eqn:El; [|contradiction].
  set (g := fun x => negb (match loc_path st x, Some pl with
                           | Some a, Some b => path_eqb a b
                           | None, None => true
                           | _, _ => false end)).
  set (hs := l :: filter g (history st)).
  assert (H1 : Forall (fun x => loc_path st x <> None) hs).
  { constructor; [rewrite El; discriminate|].
    apply Forall_forall. intros x Hx. apply filter_In in Hx as [Hx _].
    exact (proj1 (Forall_forall _ _) Wh x Hx). }
  assert (H2 : NoDup (map (loc_path st) hs)).
  { unfold hs. cbn [map]. rewrite El. constructor; [|apply nodup_map_filter, Wd].
    intros Hin. apply in_map_iff in Hin as (y & Ey & Hy). apply filter_In in Hy as [_ Hg].
    unfold g in Hg. rewrite Ey, TreeFacts.path_eqb_refl in Hg. discriminate. }
  unfold tree_wf. rewrite loc_path_with_history. cbn [history historyLimit nodes with_history].
  destruct (Nat.ltb_spec (historyLimit st) (List.length hs)).
  - repeat split; [exact Wn| | |].
    + apply Forall_forall. intros x Hx. apply (proj1 (Forall_forall _ _) H1).
      rewrite <- (firstn_skipn (historyLimit st) hs). apply in_or_app. left. exact Hx.
    + apply nodup_map_firstn, H2.
    + rewrite length_firstn. lia.
  - repeat split; [exact Wn|exact H1|exact H2|lia].
Qed.

Lemma removeFromNodesMap_frame (fuel : nat) (st : TreeState) (l : loc) :
  frame st (removeFromNodesMap fuel st l) /\ ghosts (removeFromNodesMap fuel st l) = ghosts st.
Proof.
  revert st l. induction fuel as [|f IH]; intros st l; cbn [removeFromNodesMap];
    [split; [apply frame_refl|auto]|].
  lazymatch goal with
  | |- context[fold_left _ (loc_children ?S l) ?S] => set (st1 := S)
  end.
  assert (F1 : frame st st1 /\ ghosts st1 = ghosts st).
  { unfold st1. destruct (loc_path st l) as [p|]; [|split; [apply frame_refl|auto]].
    split; [|reflexivity]. repeat split; [intros x q Hx; exact Hx|].
    intros q l' Hin. left. exact (jsmap_delete_in _ _ _ _ _ Hin). }
  assert (H : forall (xs : list (string * loc)) st', frame st st' /\ ghosts st' = ghosts st ->
    frame st (fold_left (fun st '((_, c) : string * loc) => removeFromNodesMap f st c) xs st') /\
    ghosts (fold_left (fun st '((_, c) : string * loc) => removeFromNodesMap f st c) xs st') = ghosts st).
  { induction xs as [|[nm c] xs IHx]; intros st' [F G]; simpl; [auto|].
    apply IHx. destruct (IH st' c) as [F2 G2].
    split; [exact (frame_trans _ _ _ F F2)|congruence]. }
  apply H, F1.
Qed.

Lemma fullyRemoveNode_wf (st : TreeState) (p : path) :
  tree_wf st -> tree_wf (fullyRemoveNode st p) /\ ghosts (fullyRemoveNode st p) = ghosts st.
Proof.
  intros Hwf. unfold fullyRemoveNode.
  destruct (nodes_get st p) as [l|]; [|auto].
  lazymatch goal with
  | |- context[removeFromNodesMap (fuel_of ?S) ?S l] => set (st1 := S)
  end.
  assert (F1 : frame st st1 /\ ghosts st1 = ghosts st).
  { unfold st1. destruct (nodes_get st (dirname p)), (heap_get (heap st) l);
      try (split; [apply frame_refl|auto]).
    split; [apply frame_modify; reflexivity|reflexivity]. }
  destruct F1 as [F1 G1].
  destruct (removeFromNodesMap_frame (fuel_of st1) st1 l) as [F2 G2].
  set (st2 := removeFromNodesMap (fuel_of st1) st1 l) in *.
  split; [|simpl; congruence].
  apply filter_wf. exact (frame_wf _ _ Hwf (frame_trans _ _ _ F1 F2)).
Qed.

Lemma advance_loop_wf (entries : list (path * ghost)) (st : TreeState) (removed : bool) :
  tree_wf st -> tree_wf (fst (advance_loop entries st removed)).
Proof.
  revert st removed. induction entries as [|[p g] entries IH]; intros st removed Hwf;
    cbn [advance_loop]; [exact Hwf|].
  lazymatch goal with
  | |- context[Nat.leb (ghostFadeSteps ?S) _] => set (st1 := S)
  end.
  assert (W1 : tree_wf st1).
  { apply (frame_wf st); [exact Hwf|]. unfold st1.
    eapply frame_trans; [apply frame_with_ghosts|]. apply frame_modify; reflexivity. }
  destruct (Nat.leb _ _); apply IH; [|exact W1].
  apply (frame_wf (fullyRemoveNode st1 p)); [apply fullyRemoveNode_wf, W1|apply frame_with_ghosts].
Qed.

Lemma setNode_tail_wf (s : TreeState) (l : loc) (p : path) (ty : ntype)
    (et : option event_kind) (now : Z) :
  tree_wf s -> loc_path s l <> None ->
  tree_wf (propagateToParents
    (addToHistory (with_ghosts (modify_node s l (fun n =>
        set_ghost false 0 (set_type ty (set_event et (Some now) n))))
      (JsMap.delete path_eqb (ghosts (modify_node s l (fun n =>
        set_ghost false 0 (set_type ty (set_event et (Some now) n))))) p)) l) p et now).
Proof.
  intros Hwf Hl.
  eapply frame_wf; [|apply propagateToParents_frame].
  apply addToHistory_wf.
  - apply (frame_wf s); [exact Hwf|].
    apply (frame_trans s (modify_node s l (fun n =>
        set_ghost false 0 (set_type ty (set_event et (Some now) n)))));
      [apply frame_modify; reflexivity|apply frame_with_ghosts].
  - change (loc_path (modify_node s l (fun n =>
        set_ghost false 0 (set_type ty (set_event et (Some now) n)))) l <> None).
    rewrite loc_path_modify by reflexivity. exact Hl.
Qed.

Lemma setNode_wf (st : TreeState) (p : path) (ty : ntype) (et : option event_kind) (now : Z) :
  tree_wf st -> tree_wf (setNode st p ty et now).
Proof.
  intros Hwf. unfold setNode.
  destruct (ensureParents_frame st p Hwf) as [F1 _].
  destruct (ensureParents st p) as [s1 par]. simpl in F1.
  pose proof (frame_wf _ _ Hwf F1) as W1.
  destruct (nodes_get s1 p) as [l|] eqn:E2.
  - apply setNode_tail_wf; [exact W1|].
    destruct (jsmap_get_in _ _ _ _ E2) as [q Hq]. exact (proj1 W1 q l Hq).
  - destruct (alloc_frame s1 (createNode p ty)) as [Fa La].
    destruct (alloc s1 (createNode p ty)) as [s2 l]. simpl in Fa, La.
    apply setNode_tail_wf.
    + apply (frame_wf s1); [exact W1|]. eapply frame_trans; [exact Fa|].
      apply (frame_trans s2 (modify_node s2 par (fun n =>
                set_children (JsMap.set String.eqb (children n) (basename p) l) n)));
        [apply frame_modify; reflexivity|].
      apply frame_with_nodes_set. rewrite loc_path_modify by reflexivity. exact La.
    + change (loc_path (modify_node s2 par (fun n =>
                set_children (JsMap.set String.eqb (children n) (basename p) l) n)) l <> None).
      rewrite loc_path_modify by reflexivity. exact La.
Qed.

Lemma removeNode_wf (st : TreeState) (p : path) (et : option event_kind) (now : Z) :
  tree_wf st -> tree_wf (removeNode st p et now).
Proof.
  intros Hwf. unfold removeNode.
  destruct (nodes_get st p) as [l|] eqn:E; [|exact Hwf].
  assert (Hl : loc_path st l <> None).
  { destruct (jsmap_get_in _ _ _ _ E) as [q Hq]. exact (proj1 Hwf q l Hq). }
  set (s1 := modify_node st l (fun n => set_event et (Some now) (set_ghost true 0 n))).
  assert (F1 : frame st s1) by (apply frame_modify; reflexivity).
  lazymatch goal with
  | |- context[with_ghosts ?S _] => set (s2 := S)
  end.
  assert (F2 : frame s1 s2).
  { unfold s2. destruct (heap_get (heap s1) l) as [n|]; [|apply frame_refl].
    destruct (ntype_eqb _ _); [apply markChildrenAsGhosts_frame|apply frame_refl]. }
  pose proof (frame_trans _ _ _ F1 F2) as F12.
  eapply frame_wf; [|apply propagateToParents_frame].
  apply addToHistory_wf.
  - apply (frame_wf st); [exact Hwf|]. eapply frame_trans; [exact F12|apply frame_with_ghosts].
  - change (loc_path s2 l <> None).
    destruct (loc_path st l) as [q|] eqn:Eq; [|contradiction].
    rewrite (proj1 F12 _ _ Eq). discriminate.
Qed.

(** X11: [setNode], [removeNode] and [advanceGhosts] preserve the
    well-formedness of the tree state: indexed and history locations stay
    allocated, the history holds each path at most once, and it never
    exceeds [historyLimit]. *)
Theorem tree_history_invariant (st : TreeState) (Hwf : tree_wf st) :
  (forall p ty et now, tree_wf (setNode st p ty et now)) /\
  (forall p et now, tree_wf (removeNode st p et now)) /\
  tree_wf (fst (advanceGhosts st)).
Proof.
  split; [intros; apply setNode_wf, Hwf|].
  split; [intros; apply removeNode_wf, Hwf|].
  apply advance_loop_wf, Hwf.
Qed.

Lemma jsmap_get_set_self {V} (m : list (path * V)) (k : path) (v : V) :
  JsMap.get path_eqb (JsMap.set path_eqb m k v) k = Some v.
Proof.
  induction m as [|[a b] m IH]; simpl.
  - rewrite TreeFacts.path_eqb_refl. reflexivity.
  - destruct (path_eqb k a) eqn:E; simpl; rewrite E; [reflexivity|exact IH].
Qed.

Lemma jsmap_get_set_other {V} (m : list (path * V)) (k q : path) (v : V) :
  JsMap.get path_eqb m q <> None -> JsMap.get path_eqb (JsMap.set path_eqb m k v) q <> None.
Proof.
  induction m as [|[a b] m IH]; simpl; [auto|].
  destruct (path_eqb k a) eqn:E; simpl; destruct (path_eqb q a); auto; discriminate.
Qed.

Lemma set_key_in {V} (m : list (path * V)) (k : path) (v : V) (a : path) (b : V) :
  In (a, b) (JsMap.set path_eqb m k v) -> a = k \/ In a (map fst m).
Proof.
  induction m as [|[x y] m IH]; simpl.
  - intros [[= -> _]|[]]; auto.
  - destruct (path_eqb k x); simpl; intros [H|H].
    + injection H as -> _. right; left; reflexivity.
    + right; right. apply (in_map fst) in H. exact H.
    + injection H as -> _. right; left; reflexivity.
    + destruct (IH H); [left|right; right]; auto.
Qed.

Lemma keys_set {V} (m : list (path * V)) (k : path) (v : V) :
  NoDup (map fst m) -> NoDup (map fst (JsMap.set path_eqb m k v)).
Proof.
  induction m as [|[a b] m IH]; simpl; intros H.
  - constructor; [intros []|constructor].
  - inversion H as [|? ? Hn Hd]; subst.
    destruct (path_eqb k a) eqn:E; simpl; constructor; auto.
    intros Hin. apply in_map_iff in Hin as ([a' b'] & Ea & Hin). simpl in Ea. subst a'.
    assert (Hk : In a (k :: map fst m)).
    { destruct (set_key_in m k v a b' Hin); [left; auto|right; auto]. }
    destruct Hk as [->|Hk]; [rewrite TreeFacts.path_eqb_refl in E; discriminate|contradiction].
Qed.

Lemma get_delete_nodup {V} (m : list (path * V)) (k : path) :
  NoDup (map fst m) -> JsMap.get path_eqb (JsMap.delete path_eqb m k) k = None.
Proof.
  induction m as [|[a b] m IH]; simpl; intros H; [reflexivity|].
  inversion H as [|? ? Hn Hd]; subst.
  destruct (path_eqb k a) eqn:E.
  - apply TreeFacts.path_eqb_eq in E. subst a.
    clear -Hn. induction m as [|[x y] m IHm]; simpl; [reflexivity|].
    destruct (path_eqb k x) eqn:E.
    + apply TreeFacts.path_eqb_eq in E. subst x. simpl in Hn. tauto.
    + apply IHm. simpl in Hn. tauto.
  - simpl. rewrite E. apply IH, Hd.
Qed.

Lemma ensure_loop_index (segs : list string) (st : TreeState) (cur : loc) (cp : path) :
  ghosts (fst (ensure_loop st cur cp segs)) = ghosts st /\
  (forall q, nodes_get st q <> None -> nodes_get (fst (ensure_loop st cur cp segs)) q <> None).
Proof.
  revert st cur cp. induction segs as [|sg segs IH]; intros st cur cp; cbn [ensure_loop];
    [split; auto|].
  lazymatch goal with
  | |- context[JsMap.get String.eqb (loc_children ?S cur) sg] => set (st1 := S)
  end.
  assert (H1 : ghosts st1 = ghosts st /\ (forall q, nodes_get st q <> None -> nodes_get st1 q <> None)).
  { unfold st1. destruct (JsMap.has _ _ _); [split; auto|].
    destruct (alloc st (createNode (cp ++ [sg]) Directory)) as [s1 l1] eqn:Ea.
    injection Ea as <- <-. split; [reflexivity|].
    intros q Hq. unfold nodes_get. simpl. apply jsmap_get_set_other, Hq. }
  destruct H1 as [G1 N1].
  destruct (JsMap.get String.eqb (loc_children st1 cur) sg) as [c|]; [|auto].
  destruct (IH st1 c (cp ++ [sg])) as [G2 N2]. split; [congruence|auto].
Qed.

Lemma ensureParents_index (st : TreeState) (p : path) :
  ghosts (fst (ensureParents st p)) = ghosts st /\
  (forall q, nodes_get st q <> None -> nodes_get (fst (ensureParents st p)) q <> None).
Proof.
  unfold ensureParents. destruct (getPathSegments st p); [split; auto|].
  apply ensure_loop_index.
Qed.

(** X12: after [setNode], the path is indexed, every path indexed before
    is still indexed, and the path is no longer a ghost (when ghost keys
    are distinct). *)
Theorem setNode_indexes_and_unghosts (st : TreeState) (p : path) (ty : ntype)
    (et : option event_kind) (now : Z) (Hg : NoDup (map fst (ghosts st))) :
  nodes_get (setNode st p ty et now) p <> None /\
  (forall q, nodes_get st q <> None -> nodes_get (setNode st p ty et now) q <> None) /\
  JsMap.get path_eqb (ghosts (setNode st p ty et now)) p = None.
Proof.
  unfold setNode.
  destruct (ensureParents_index st p) as [G1 N1].
  destruct (ensureParents st p) as [s1 par]. simpl in G1, N1.
  assert (Htail : forall s l, nodes_get s p <> None -> ghosts s = ghosts st ->
    (forall q, nodes_get st q <> None -> nodes_get s q <> None) ->
    let r := propagateToParents
      (addToHistory (with_ghosts (modify_node s l (fun n =>
          set_ghost false 0 (set_type ty (set_event et (Some now) n))))
        (JsMap.delete path_eqb (ghosts (modify_node s l (fun n =>
          set_ghost false 0 (set_type ty (set_event et (Some now) n))))) p)) l) p et now in
    nodes_get r p <> None /\ (forall q, nodes_get st q <> None -> nodes_get r q <> None) /\
    JsMap.get path_eqb (ghosts r) p = None).
  { intros s l Hp Gs Ns r. unfold r.
    destruct (propagateToParents_frame
      (addToHistory (with_ghosts (modify_node s l (fun n =>
          set_ghost false 0 (set_type ty (set_event et (Some now) n))))
        (JsMap.delete path_eqb (ghosts (modify_node s l (fun n =>
          set_ghost false 0 (set_type ty (set_event et (Some now) n))))) p)) l) p et now)
      as (_ & Gp & Np).
    unfold nodes_get. rewrite Gp, Np. cbn [addToHistory with_history with_ghosts ghosts nodes modify_node with_heap].
    split; [exact Hp|]. split; [exact Ns|].
    apply get_delete_nodup. rewrite Gs. exact Hg. }
  destruct (nodes_get s1 p) as [l|] eqn:E2.
  - apply Htail; [congruence|exact G1|exact N1].
  - apply Htail.
    + unfold nodes_get. simpl. rewrite jsmap_get_set_self. discriminate.
    + simpl. exact G1.
    + intros q Hq. unfold nodes_get. simpl. apply jsmap_get_set_other, N1, Hq.
Qed.

(** X13: [removeNode] on an indexed path keeps the index as it is,
    registers the path as a ghost of its node with death time [now] and
    fade step 0, and keeps ghost keys distinct. *)
Theorem removeNode_registers_ghost (st : TreeState) (p : path) (l : loc)
    (et : option event_kind) (now : Z)
    (Hidx : nodes_get st p = Some l) (Hg : NoDup (map fst (ghosts st))) :
  nodes (removeNode st p et now) = nodes st /\
  JsMap.get path_eqb (ghosts (removeNode st p et now)) p =
    Some {| gnode := l; deathTime := now; fadeStep := 0 |} /\
  NoDup (map fst (ghosts (removeNode st p et now))).
Proof.
  unfold removeNode. rewrite Hidx.
  set (s1 := modify_node st l (fun n => set_event et (Some now) (set_ghost true 0 n))).
  lazymatch goal with
  | |- context[with_ghosts ?S _] => set (s2 := S)
  end.
  assert (H2 : ghosts s2 = ghosts st /\ nodes s2 = nodes st).
  { unfold s2. destruct (heap_get (heap s1) l) as [n|]; [|split; reflexivity].
    destruct (ntype_eqb _ _); [|split; reflexivity].
    destruct (markChildrenAsGhosts_frame (fuel_of s1) s1 l) as (_ & G & N).
    rewrite G, N. split; reflexivity. }
  destruct H2 as [G2 N2].
  lazymatch goal with
  | |- context[propagateToParents ?S p et now] =>
      destruct (propagateToParents_frame S p et now) as (_ & Gp & Np)
  end.
  rewrite Gp, Np. cbn [addToHistory with_history with_ghosts ghosts nodes].
  rewrite G2, N2. split; [reflexivity|]. split.
  - apply jsmap_get_set_self.
  - apply keys_set, Hg.
Qed.

Lemma init_wf : tree_wf (init ["r"%string] 0 0).
Proof.
  repeat split; cbn.
  - intros q l [[= _ <-]|[]]. discriminate.
  - constructor.
  - constructor.
  - lia.
Qed.

Lemma tree_history_invariant_witness :
  tree_wf (init ["r"%string] 0 0) /\ tree_wf (fst (advanceGhosts (init ["r"%string] 0 0))).
Proof.
  split; [exact init_wf|].
  exact (proj2 (proj2 (tree_history_invariant (init ["r"%string] 0 0) init_wf))).
Defined.

Lemma setNode_indexes_and_unghosts_witness :
  NoDup (map fst (ghosts (init ["r"%string] 0 0))) /\
  nodes_get (setNode (init ["r"%string] 0 0) ["r"; "a"]%string File (Some Add) 1000%Z)
    ["r"; "a"]%string <> None.
Proof.
  assert (Hg : NoDup (map fst (ghosts (init ["r"%string] 0 0)))) by constructor.
  split; [exact Hg|].
  exact (proj1 (setNode_indexes_and_unghosts (init ["r"%string] 0 0) ["r"; "a"]%string File
           (Some Add) 1000%Z Hg)).
Defined.

Lemma removeNode_registers_ghost_witness :
  let st := setNode (init ["r"%string] 0 0) ["r"; "a"]%string File (Some Add) 1000%Z in
  nodes_get st ["r"; "a"]%string = Some 1%nat /\
  NoDup (map fst (ghosts st)) /\
  JsMap.get path_eqb (ghosts (removeNode st ["r"; "a"]%string (Some Unlink) 5000%Z))
    ["r"; "a"]%string = Some {| gnode := 1; deathTime := 5000; fadeStep := 0 |}.
Proof.
  intros st.
  assert (Hi : nodes_get st ["r"; "a"]%string = Some 1%nat) by (vm_compute; reflexivity).
  assert (Hg : NoDup (map fst (ghosts st))) by (vm_compute; constructor).
  split; [exact Hi|]. split; [exact Hg|].
  exact (proj1 (proj2 (removeNode_registers_ghost st ["r"; "a"]%string 1%nat (Some Unlink)
           5000%Z Hi Hg))).
Defined.
End TreeInvFacts.

(* ------------------------------------------------------------------ *)
(** ** Line selection and filtering ([src/lib/layout.mjs]) *)

Module LayoutMoreFacts.
Import Heat Tree Layout.

(** Two display lines of a single file node, weighing 1 and 2. *)
Definition sample_lines : list line :=
  let ln := createLayoutNode (createNode ["r"; "f"]%string File) 1 true [] in
  [mkLine ln 0 1 None; mkLine ln 1 2 None].

Lemma strongly_sorted_app_rel {A} (rel : A -> A -> Prop) (l1 l2 : list A) (x y : A) :
  StronglySorted rel (l1 ++ l2) -> In x l1 -> In y l2 -> rel x y.
Proof.
  induction l1 as [|a l1 IH]; simpl; [intros _ []|].
  intros H [->|Hx] Hy; inversion H as [|? ? Hs Hall]; subst.
  - apply (proj1 (Forall_forall _ _) Hall). apply in_or_app. right. exact Hy.
  - exact (IH Hs Hx Hy).
Qed.

Lemma selectVisibleLines_collapsed_spec (L : list line) (a : Z) (Ha : (0 <= a)%Z)
    (Hc : (a < Z.of_nat (List.length L))%Z) :
  Z.of_nat (List.length (selectVisibleLines L a)) = a /\
  (forall x y, In x (selectVisibleLines L a) -> In y L -> ~ In y (selectVisibleLines L a) ->
     (weight y <= weight x)%R).
Proof.
  unfold selectVisibleLines.
  destruct (Z.leb_spec (Z.of_nat (List.length L)) a) as [Hle|_]; [lia|].
  change (js_sort (fun a0 b => sign_sub (weight b) (weight a0)) L) with (LayoutFacts.weight_sort L).
  set (sorted := LayoutFacts.weight_sort L).
  set (selected := firstn (Z.to_nat a) sorted).
  assert (Hp1 : Permutation sorted L) by apply LayoutFacts.js_sort_perm.
  assert (Hp2 : Permutation
                  (js_sort (fun a0 b => Nat.compare (displayOrder a0) (displayOrder b)) selected)
                  selected) by apply LayoutFacts.js_sort_perm.
  split.
  - rewrite (Permutation_length Hp2). unfold selected. rewrite length_firstn.
    rewrite (Permutation_length Hp1). lia.
  - intros x y Hx Hy Hny.
    apply (Permutation_in _ Hp2) in Hx.
    assert (Hy' : In y (skipn (Z.to_nat a) sorted)).
    { apply (Permutation_in _ (Permutation_sym Hp1)) in Hy.
      rewrite <- (firstn_skipn (Z.to_nat a) sorted) in Hy.
      apply in_app_or in Hy as [Hy|Hy]; [|exact Hy].
      exfalso. apply Hny. apply (Permutation_in _ (Permutation_sym Hp2)). exact Hy. }
    pose proof (LayoutFacts.weight_sort_sorted L) as Hs. fold sorted in Hs.
    rewrite <- (firstn_skipn (Z.to_nat a) sorted) in Hs.
    exact (strongly_sorted_app_rel _ _ _ x y Hs Hx Hy').
Qed.

(** X14: when there are more lines than rows, [selectVisibleLines] keeps
    exactly [availableRows] of the given lines, and every kept line weighs
    at least as much as every dropped one. *)
Theorem selectVisibleLines_fills_with_heaviest (L : list line) (a : Z) (Ha : (0 <= a)%Z)
    (Hc : (a < Z.of_nat (List.length L))%Z) :
  Z.of_nat (List.length (selectVisibleLines L a)) = a /\
  incl (selectVisibleLines L a) L /\
  (forall x y, In x (selectVisibleLines L a) -> In y L -> ~ In y (selectVisibleLines L a) ->
     (weight y <= weight x)%R).
Proof.
  destruct (selectVisibleLines_collapsed_spec L a Ha Hc) as [H1 H2].
  split; [exact H1|]. split; [|exact H2].
  intros x Hx. unfold selectVisibleLines in Hx.
  destruct (Z.leb_spec (Z.of_nat (List.length L)) a); [lia|].
  apply (Permutation_in _ (LayoutFacts.js_sort_perm _ _)) in Hx.
  apply (Permutation_in _ (LayoutFacts.js_sort_perm (fun a0 b => sign_sub (weight b) (weight a0)) L)).
  rewrite <- (firstn_skipn (Z.to_nat a) (js_sort _ L)). apply in_or_app. left. exact Hx.
Qed.

(** X15: a collapsed layout fills every available row, and each shown
    line weighs at least as much as every candidate left out. *)
Theorem generateLayout_collapsed_fills (localeCompare : string -> string -> comparison)
    (isMatch : string -> string -> bool) (st : TreeState) (rows : Z)
    (gs : option GitStatus) (filterPattern : string) (now : Z) :
  let '(st', res) := generateLayout localeCompare isMatch st rows gs filterPattern now in
  let candidates :=
    generateAllLines localeCompare isMatch st' gs filterPattern (layoutRootPath res) in
  collapsed res = true ->
  Z.of_nat (List.length (lines res)) = availableRows res /\
  (forall x y, In x (lines res) -> In y candidates -> ~ In y (lines res) ->
     (weight y <= weight x)%R).
Proof.
  unfold generateLayout. cbv beta iota zeta.
  cbn [lines collapsed layoutRootPath availableRows].
  set (rp := match heap_get (heap st) (root st) with
             | Some rn => path_string (npath rn) | None => ""%string end).
  set (L := generateAllLines localeCompare isMatch (calculateAllHeat st now) gs
              filterPattern rp).
  assert (Havail : (0 <= calculateAvailableRows rows)%Z).
  { unfold calculateAvailableRows, headerRows, footerRows, minRows. lia. }
  intros Hc. apply Nat.ltb_lt in Hc.
  assert (Hlt : (calculateAvailableRows rows < Z.of_nat (List.length L))%Z).
  { unfold selectVisibleLines in Hc.
    destruct (Z.leb_spec (Z.of_nat (List.length L)) (calculateAvailableRows rows)); [lia|lia]. }
  exact (selectVisibleLines_collapsed_spec L _ Havail Hlt).
Qed.

Lemma flattenTree_depths (localeCompare : string -> string -> comparison)
    (st : TreeState) (gs : option GitStatus) :
  forall fuel l d last pc,
  Forall (fun ln => (d <= depth ln)%nat) (flattenTree localeCompare fuel st gs l d last pc) /\
  match flattenTree localeCompare fuel st gs l d last pc with
  | [] => (fuel = 0%nat \/ heap_get (heap st) l = None)
  | ln :: rest => depth ln = d /\ Forall (fun x => (S d <= depth x)%nat) rest
  end.
Proof.
  induction fuel as [|f IH]; intros l d last pc; simpl; [split; [constructor|auto]|].
  destruct (heap_get (heap st) l) as [tn|]; [|split; [constructor|auto]].
  destruct (ntype_eqb (type tn) Directory && negb (Nat.eqb (List.length (children tn)) 0)).
  - set (kids := js_sort _ _).
    set (newPC := if Nat.ltb 0 d then pc ++ [negb last] else pc).
    set (childNodes := List.concat _).
    assert (Hc : Forall (fun x => (S d <= depth x)%nat) childNodes).
    { apply Forall_forall. intros x Hx. unfold childNodes in Hx.
      apply in_concat in Hx as (ys & Hys & Hx). apply in_map_iff in Hys as ([i c] & <- & _).
      exact (proj1 (Forall_forall _ _) (proj1 (IH c (S d) _ newPC)) x Hx). }
    split; [constructor; [simpl; lia|]|split; [reflexivity|exact Hc]].
    apply Forall_forall. intros x Hx. pose proof (proj1 (Forall_forall _ _) Hc x Hx). cbv beta in *. lia.
  - split; [constructor; [simpl; lia|constructor]|split; [reflexivity|constructor]].
Qed.

(** X16: when the root node exists, [generateAllLines] starts with the
    root line (depth 0, display order 0, weight [WEIGHT.base.ROOT]), and
    no other line has depth 0. *)
Theorem generateAllLines_single_root (localeCompare : string -> string -> comparison)
    (isMatch : string -> string -> bool) (st : TreeState) (gs : option GitStatus)
    (filterPattern rootPath : string) (Hroot : heap_get (heap st) (root st) <> None) :
  exists first rest,
    generateAllLines localeCompare isMatch st gs filterPattern rootPath = first :: rest /\
    depth (lnode_of first) = 0%nat /\ displayOrder first = 0%nat /\
    weight first = WEIGHT_base_ROOT /\
    Forall (fun y => depth (lnode_of y) <> 0%nat) rest.
Proof.
  unfold generateAllLines.
  destruct (flattenTree_depths localeCompare st gs (fuel_of st) (root st) 0 true []) as [_ H].
  destruct (flattenTree localeCompare (fuel_of st) st gs (root st) 0 true []) as [|ln rest] eqn:E.
  - destruct H as [H|H]; [discriminate|contradiction].
  - destruct H as [Hd Hr]. simpl.
    eexists _, _. split; [reflexivity|]. simpl. split; [exact Hd|]. split; [reflexivity|].
    split; [unfold calculateLineWeight; rewrite Hd; reflexivity|].
    apply Forall_forall. intros y Hy. apply in_map_iff in Hy as ([i n] & <- & Hin).
    apply in_combine_r in Hin. simpl.
    pose proof (proj1 (Forall_forall _ _) Hr n Hin). cbv beta in *. lia.
Qed.

Lemma selectVisibleLines_fills_with_heaviest_witness :
  (0 <= 1)%Z /\ (1 < Z.of_nat (List.length sample_lines))%Z /\
  Z.of_nat (List.length (selectVisibleLines sample_lines 1)) = 1%Z.
Proof.
  assert (Hc : (1 < Z.of_nat (List.length sample_lines))%Z) by (cbn; lia).
  split; [lia|]. split; [exact Hc|].
  exact (proj1 (selectVisibleLines_fills_with_heaviest sample_lines 1 ltac:(lia) Hc)).
Defined.

Lemma generateAllLines_single_root_witness :
  heap_get (heap (init ["r"%string] 0 0)) (root (init ["r"%string] 0 0)) <> None /\
  exists first rest,
    generateAllLines (fun _ _ => Eq) (fun _ _ => false) (init ["r"%string] 0 0) None ""
      "/r" = first :: rest /\ depth (lnode_of first) = 0%nat.
Proof.
  assert (Hr : heap_get (heap (init ["r"%string] 0 0)) (root (init ["r"%string] 0 0)) <> None)
    by (vm_compute; discriminate).
  split; [exact Hr|].
  destruct (generateAllLines_single_root (fun _ _ => Eq) (fun _ _ => false)
              (init ["r"%string] 0 0) None "" "/r" Hr) as (f & r & E & D & _).
  exists f, r. split; [exact E|exact D].
Defined.

End LayoutMoreFacts.

(* ------------------------------------------------------------------ *)
(** ** History records each change ([src/lib/tree-state.mjs]) *)

Module TreeHistoryFacts.
Import Heat Tree TreeInvFacts.

(** Every index entry points to a node whose path is its key, and every
    allocated location lies below [next_loc]. *)
Definition keyed (st : TreeState) : Prop :=
  (forall q l, In (q, l) (nodes st) -> loc_path st l = Some q) /\
  (forall x n, heap_get (heap st) x = Some n -> (x < next_loc st)%nat).

Lemma heap_get_some_modify (h : list (loc * node)) (l x : loc) (f : node -> node) :
  heap_get (heap_modify h l f) x <> None -> heap_get h x <> None.
Proof.
  rewrite LayoutFacts.heap_get_modify.
  destruct (Nat.eqb x l); [destruct (heap_get h x); simpl; congruence|auto].
Qed.

Lemma keyed_modify (st : TreeState) (l : loc) (f : node -> node) :
  (forall n, npath (f n) = npath n) -> keyed st -> keyed (modify_node st l f).
Proof.
  intros Hf [K1 K2]. split.
  - intros q l' Hin. rewrite loc_path_modify by exact Hf. exact (K1 q l' Hin).
  - intros x n Hx. change (heap_get (heap_modify (heap st) l f) x = Some n) in Hx.
    change (x < next_loc st)%nat.
    assert (Hs : heap_get (heap st) x <> None)
      by (apply (heap_get_some_modify _ l x f); rewrite Hx; discriminate).
    destruct (heap_get (heap st) x) as [n'|] eqn:E; [exact (K2 x n' E)|contradiction].
Qed.

Lemma keyed_alloc (st : TreeState) (n : node) :
  keyed st ->
  keyed (fst (alloc st n)) /\ loc_path (fst (alloc st n)) (snd (alloc st n)) = Some (npath n).
Proof.
  intros [K1 K2].
  assert (Hfresh : heap_get (heap st) (next_loc st) = None).
  { destruct (heap_get (heap st) (next_loc st)) as [m|] eqn:E; [|reflexivity].
    specialize (K2 _ _ E). lia. }
  destruct (alloc_frame st n) as [[E _] _].
  split; [split|].
  - intros q l Hin. apply E, K1, Hin.
  - intros x m Hx. cbn in *. rewrite heap_get_app in Hx.
    destruct (heap_get (heap st) x) as [m'|] eqn:Ex; [specialize (K2 _ _ Ex); lia|].
    destruct (Nat.eqb_spec x (next_loc st)); [lia|discriminate].
  - unfold loc_path. cbn. rewrite heap_get_app, Hfresh, Nat.eqb_refl. reflexivity.
Qed.

Lemma jsmap_set_path_in {V} (m : list (path * V)) (k q : path) (v w : V) :
  In (q, w) (JsMap.set path_eqb m k v) -> In (q, w) m \/ (q = k /\ w = v).
Proof.
  induction m as [|[a b] m IH]; simpl.
  - intros [[= -> ->]|[]]. auto.
  - destruct (path_eqb k a) eqn:E; simpl; intros [H|H].
    + injection H as -> ->. apply TreeFacts.path_eqb_eq in E. auto.
    + auto.
    + auto.
    + destruct (IH H) as [H'|H']; auto.
Qed.

Lemma keyed_set (st : TreeState) (k : path) (l : loc) :
  keyed st -> loc_path st l = Some k ->
  keyed (with_nodes st (JsMap.set path_eqb (nodes st) k l)).
Proof.
  intros [K1 K2] Hl. split; [|exact K2].
  intros q l' Hin. cbn in Hin.
  destruct (jsmap_set_path_in _ _ _ _ _ Hin) as [H|[-> ->]]; [exact (K1 q l' H)|exact Hl].
Qed.

Lemma keyed_lookup (st : TreeState) (p : path) (l : loc) :
  keyed st -> nodes_get st p = Some l -> loc_path st l = Some p.
Proof.
  intros [K1 _]. unfold nodes_get.
  induction (nodes st) as [|[a b] m IH]; simpl; [discriminate|].
  destruct (path_eqb p a) eqn:E.
  - intros [= <-]. apply TreeFacts.path_eqb_eq in E. subst a. apply K1. left. reflexivity.
  - intros H. apply IH; [|exact H]. intros q l' Hin. apply K1. right. exact Hin.
Qed.

Lemma propagate_loop_keyed (fuel : nat) (st : TreeState) (p : path) (now : Z) :
  keyed st -> keyed (propagate_loop fuel st p now).
Proof.
  revert st p. induction fuel as [|f IH]; intros st p Hk; simpl; [exact Hk|].
  destruct (Nat.ltb _ _); [exact Hk|].
  assert (Hk1 : keyed (match nodes_get st p with
                       | Some l => modify_node st l (propagate_update now)
                       | None => st end)).
  { destruct (nodes_get st p); [|exact Hk].
    apply keyed_modify; [apply npath_propagate_update|exact Hk]. }
  destruct (path_eqb _ _); [exact Hk1|]. apply IH, Hk1.
Qed.

Lemma markChildrenAsGhosts_keyed (fuel : nat) (st : TreeState) (l : loc) :
  keyed st -> keyed (markChildrenAsGhosts fuel st l).
Proof.
  revert st l. induction fuel as [|f IH]; intros st l Hk; simpl; [exact Hk|].
  generalize (loc_children st l). intros xs. revert st Hk.
  induction xs as [|[nm c] xs IHx]; intros st Hk; simpl; [exact Hk|].
  apply IHx.
  assert (Hk1 : keyed (modify_node st c (set_ghost true 0))) by (apply keyed_modify; [reflexivity|exact Hk]).
  destruct (heap_get _ c); [destruct (ntype_eqb _ _); [apply IH|]|]; exact Hk1.
Qed.

Lemma ensure_loop_keyed (segs : list string) (st : TreeState) (cur : loc) (cp : path) :
  keyed st -> keyed (fst (ensure_loop st cur cp segs)).
Proof.
  revert st cur cp. induction segs as [|sg segs IH]; intros st cur cp Hk; cbn [ensure_loop];
    [exact Hk|].
  lazymatch goal with
  | |- context[JsMap.get String.eqb (loc_children ?S cur) sg] => set (st1 := S)
  end.
  assert (Hk1 : keyed st1).
  { unfold st1. destruct (JsMap.has _ _ _); [exact Hk|].
    destruct (keyed_alloc st (createNode (cp ++ [sg]) Directory) Hk) as [Ka La].
    destruct (alloc st (createNode (cp ++ [sg]) Directory)) as [s1 l1]. simpl in Ka, La.
    apply keyed_set; [apply keyed_modify; [reflexivity|exact Ka]|].
    rewrite loc_path_modify by reflexivity. exact La. }
  destruct (JsMap.get _ _ _); [apply IH|]; exact Hk1.
Qed.

Lemma ensureParents_keyed (st : TreeState) (p : path) :
  keyed st -> keyed (fst (ensureParents st p)).
Proof.
  intros Hk. unfold ensureParents. destruct (getPathSegments st p); [exact Hk|].
  apply ensure_loop_keyed, Hk.
Qed.

Lemma ensure_loop_limit (segs : list string) (st : TreeState) (cur : loc) (cp : path) :
  historyLimit (fst (ensure_loop st cur cp segs)) = historyLimit st.
Proof.
  revert st cur cp. induction segs as [|sg segs IH]; intros st cur cp; cbn [ensure_loop];
    [reflexivity|].
  lazymatch goal with
  | |- context[JsMap.get String.eqb (loc_children ?S cur) sg] => set (st1 := S)
  end.
  assert (H1 : historyLimit st1 = historyLimit st).
  { unfold st1. destruct (JsMap.has _ _ _); [reflexivity|].
    destruct (alloc _ _) as [s1 l1] eqn:Ea. injection Ea as <- _. reflexivity. }
  destruct (JsMap.get _ _ _); [rewrite IH|]; exact H1.
Qed.

Lemma ensureParents_limit (st : TreeState) (p : path) :
  historyLimit (fst (ensureParents st p)) = historyLimit st.
Proof.
  unfold ensureParents. destruct (getPathSegments st p); [reflexivity|].
  apply ensure_loop_limit.
Qed.

Lemma addToHistory_head (st : TreeState) (l : loc) :
  (0 < historyLimit st)%nat -> exists rest, history (addToHistory st l) = l :: rest.
Proof.
  intros H. unfold addToHistory. cbn [with_history history].
  destruct (Nat.ltb _ _).
  - destruct (historyLimit st) as [|k]; [lia|]. simpl. eexists. reflexivity.
  - eexists. reflexivity.
Qed.

(** The common tail of [setNode] and [removeNode]: record [l] in the
    history, then touch the parents. *)
Lemma record_tail (s : TreeState) (l : loc) (p : path) (et : option event_kind) (now : Z) :
  keyed s -> loc_path s l = Some p -> (0 < historyLimit s)%nat ->
  let r := propagateToParents (addToHistory s l) p et now in
  keyed r /\
  match history r with x :: _ => loc_path r x = Some p | [] => False end /\
  isInHistory r p = true.
Proof.
  intros Hk Hl Hlim r.
  destruct (propagateToParents_frame (addToHistory s l) p et now) as [[E [Hh _]] _].
  fold r in E, Hh.
  assert (Hr : loc_path r l = Some p) by (apply E; exact Hl).
  destruct (addToHistory_head s l Hlim) as [rest Hrest].
  split; [apply propagate_loop_keyed; exact Hk|].
  unfold isInHistory. rewrite Hh, Hrest. split; [exact Hr|].
  simpl. rewrite Hr, TreeFacts.path_eqb_refl. reflexivity.
Qed.

Lemma setNode_keyed (st : TreeState) (p : path) (ty : ntype) (et : option event_kind) (now : Z) :
  keyed st -> (0 < historyLimit st)%nat ->
  let r := setNode st p ty et now in
  keyed r /\
  match history r with x :: _ => loc_path r x = Some p | [] => False end /\
  isInHistory r p = true.
Proof.
  intros Hk Hlim. unfold setNode.
  pose proof (ensureParents_keyed st p Hk) as K1.
  pose proof (ensureParents_limit st p) as L1.
  destruct (ensureParents st p) as [s1 par]. simpl in K1, L1.
  assert (Hsel : forall s l, keyed s -> loc_path s l = Some p -> historyLimit s = historyLimit st ->
    let r := propagateToParents (addToHistory (with_ghosts (modify_node s l (fun n =>
          set_ghost false 0 (set_type ty (set_event et (Some now) n))))
        (JsMap.delete path_eqb (ghosts (modify_node s l (fun n =>
          set_ghost false 0 (set_type ty (set_event et (Some now) n))))) p)) l) p et now in
    keyed r /\
    match history r with x :: _ => loc_path r x = Some p | [] => False end /\
    isInHistory r p = true).
  { intros s l Ks Ls Hs. apply record_tail.
    - apply (keyed_modify s l); [reflexivity|exact Ks].
    - change (loc_path (modify_node s l (fun n =>
          set_ghost false 0 (set_type ty (set_event et (Some now) n)))) l = Some p).
      rewrite loc_path_modify by reflexivity. exact Ls.
    - cbn. lia. }
  destruct (nodes_get s1 p) as [l|] eqn:E2.
  - apply Hsel; [exact K1|exact (keyed_lookup s1 p l K1 E2)|exact L1].
  - destruct (keyed_alloc s1 (createNode p ty) K1) as [Ka La].
    destruct (alloc s1 (createNode p ty)) as [s2 l] eqn:Ea. simpl in Ka, La.
    assert (Hl2 : historyLimit s2 = historyLimit s1) by (injection Ea as <- _; reflexivity).
    apply Hsel.
    + apply keyed_set; [apply keyed_modify; [reflexivity|exact Ka]|].
      rewrite loc_path_modify by reflexivity. exact La.
    + change (loc_path (modify_node s2 par (fun n =>
                set_children (JsMap.set String.eqb (children n) (basename p) l) n)) l = Some p).
      rewrite loc_path_modify by reflexivity. exact La.
    + cbn. congruence.
Qed.

Lemma removeNode_keyed (st : TreeState) (p : path) (et : option event_kind) (now : Z) :
  keyed st -> (0 < historyLimit st)%nat -> nodes_get st p <> None ->
  let r := removeNode st p et now in
  keyed r /\
  match history r with x :: _ => loc_path r x = Some p | [] => False end /\
  isInHistory r p = true.
Proof.
  intros Hk Hlim Hp. unfold removeNode.
  destruct (nodes_get st p) as [l|] eqn:E; [|contradiction].
  pose proof (keyed_lookup st p l Hk E) as Hl.
  set (s1 := modify_node st l (fun n => set_event et (Some now) (set_ghost true 0 n))).
  assert (K1 : keyed s1) by (apply keyed_modify; [reflexivity|exact Hk]).
  assert (F1 : frame st s1) by (apply frame_modify; reflexivity).
  lazymatch goal with
  | |- context[with_ghosts ?S _] => set (s2 := S)
  end.
  assert (K2 : keyed s2 /\ frame s1 s2).
  { unfold s2. destruct (heap_get (heap s1) l) as [n|]; [|split; [exact K1|apply frame_refl]].
    destruct (ntype_eqb _ _); [|split; [exact K1|apply frame_refl]].
    split; [apply markChildrenAsGhosts_keyed, K1|apply markChildrenAsGhosts_frame]. }
  destruct K2 as [K2 F2].
  destruct (frame_trans _ _ _ F1 F2) as [E12 [_ [L12 _]]].
  apply record_tail.
  - exact K2.
  - apply E12, Hl.
  - cbn. rewrite L12. exact Hlim.
Qed.

Lemma removeFromNodesMap_keyed (fuel : nat) (st : TreeState) (l : loc) :
  keyed st -> keyed (removeFromNodesMap fuel st l).
Proof.
  revert st l. induction fuel as [|f IH]; intros st l Hk; cbn [removeFromNodesMap]; [exact Hk|].
  lazymatch goal with
  | |- context[fold_left _ (loc_children ?S l) ?S] => set (st1 := S)
  end.
  assert (Hk1 : keyed st1).
  { unfold st1. destruct (loc_path st l); [|exact Hk].
    destruct Hk as [K1 K2]. split; [|exact K2].
    intros q l' Hin. apply K1. exact (jsmap_delete_in _ _ _ _ _ Hin). }
  generalize (loc_children st1 l). intros xs. clearbody st1. revert st1 Hk1.
  induction xs as [|[nm c] xs IHx]; intros s Hs; simpl; [exact Hs|].
  apply IHx, IH, Hs.
Qed.

Lemma fullyRemoveNode_keyed (st : TreeState) (p : path) :
  keyed st -> keyed (fullyRemoveNode st p).
Proof.
  intros Hk. unfold fullyRemoveNode.
  destruct (nodes_get st p) as [l|]; [|exact Hk].
  lazymatch goal with
  | |- context[removeFromNodesMap (fuel_of ?S) ?S l] => set (st1 := S)
  end.
  assert (K1 : keyed st1).
  { unfold st1. destruct (nodes_get st (dirname p)), (heap_get (heap st) l); try exact Hk.
    apply keyed_modify; [reflexivity|exact Hk]. }
  exact (removeFromNodesMap_keyed (fuel_of st1) st1 l K1).
Qed.

Lemma advance_loop_keyed (entries : list (path * ghost)) (st : TreeState) (removed : bool) :
  keyed st -> keyed (fst (advance_loop entries st removed)).
Proof.
  revert st removed. induction entries as [|[p g] entries IH]; intros st removed Hk;
    cbn [advance_loop]; [exact Hk|].
  lazymatch goal with
  | |- context[Nat.leb (ghostFadeSteps ?S) _] => set (st1 := S)
  end.
  assert (K1 : keyed st1) by (apply keyed_modify; [reflexivity|exact Hk]).
  destruct (Nat.leb _ _); apply IH; [|exact K1].
  exact (fullyRemoveNode_keyed st1 p K1).
Qed.

(** X18: with a positive history limit and an index whose entries point
    to nodes of the same path, [setNode] and [removeNode] of an indexed
    path keep this, put the changed node at the head of the history, and
    make [isInHistory] hold for its path; [advanceGhosts] keeps it too. *)
Theorem changes_recorded_in_history (st : TreeState) (Hk : keyed st)
    (Hlim : (0 < historyLimit st)%nat) :
  (forall p ty et now,
     let r := setNode st p ty et now in
     keyed r /\
     match history r with x :: _ => loc_path r x = Some p | [] => False end /\
     isInHistory r p = true) /\
  (forall p et now, nodes_get st p <> None ->
     let r := removeNode st p et now in
     keyed r /\
     match history r with x :: _ => loc_path r x = Some p | [] => False end /\
     isInHistory r p = true) /\
  keyed (fst (advanceGhosts st)).
Proof.
  split; [intros; apply setNode_keyed; assumption|].
  split; [intros; apply removeNode_keyed; assumption|].
  apply advance_loop_keyed, Hk.
Qed.

Lemma init_keyed : keyed (init ["r"%string] 0 0).
Proof.
  split.
  - intros q l [[= <- <-]|[]]. reflexivity.
  - intros x n. cbn. destruct (Nat.eqb_spec x 0); [lia|discriminate].
Qed.

Lemma changes_recorded_in_history_witness :
  keyed (init ["r"%string] 0 0) /\ (0 < historyLimit (init ["r"%string] 0 0))%nat /\
  isInHistory (setNode (init ["r"%string] 0 0) ["r"; "a"]%string File (Some Add) 1000%Z)
    ["r"; "a"]%string = true.
Proof.
  assert (Hl : (0 < historyLimit (init ["r"%string] 0 0))%nat) by (cbn; lia).
  split; [exact init_keyed|]. split; [exact Hl|].
  exact (proj2 (proj2 (proj1 (changes_recorded_in_history _ init_keyed Hl)
           ["r"; "a"]%string File (Some Add) 1000%Z))).
Defined.
End TreeHistoryFacts.
